(** * Hemodynamics playground: the simulation core of [app_Version2.js]

    A shallow embedding of the numerical part of the program
    (lines 86-190 of the source): the elastance waveform, the diode valve,
    the resistance conversion, the explicit-Euler loop of [runSimulation]
    and the summary metrics computed from the last beat.

    A JavaScript Number is an IEEE 754 binary64 value; it is embedded as
    Rocq's primitive [float], whose operations are specified by
    [SpecFloat] through [FloatAxioms]. The functions of the [Math] object
    that ECMA-262 leaves to the engine are a parameter of the model.

    The embedded code has no [throw] and applies only arithmetic to
    Numbers, so every call completes normally; the limits of an engine (the
    number of arguments of a spread call, memory) are outside the model. *)

From Stdlib Require Import ZArith List Bool Lia Floats.
From Stdlib Require Reals Lra String.
Import ListNotations.

Set Warnings "-inexact-float".
Set Warnings "-register-all".
Local Open Scope float_scope.

(** ** Numbers *)

Module Number.

(** The conversion of an integer to a Number (round to nearest, ties to
    even; exact below 2^53). *)
Definition of_Z (z : Z) : float :=
  SF2Prim (binary_normalize prec emax z 0 false).

(** The remainder on spec floats: the result has the sign of the dividend
    and is exact (ECMA-262, Number::remainder). *)
Definition SFrem (n d : spec_float) : spec_float :=
  match n, d with
  | S754_nan, _ | _, S754_nan => S754_nan
  | S754_infinity _, _ => S754_nan
  | _, S754_zero _ => S754_nan
  | _, S754_infinity _ => n
  | S754_zero _, _ => n
  | S754_finite sn mn en, S754_finite _ md ed =>
      let ez := Z.min en ed in
      let zn := Zpos (fst (shl_align mn en ez)) in
      let zd := Zpos (fst (shl_align md ed ez)) in
      binary_normalize prec emax (cond_Zopp sn (Z.rem zn zd)) ez sn
  end.

(** The operator [%] on Numbers. *)
Definition rem (n d : float) : float :=
  SF2Prim (SFrem (Prim2SF n) (Prim2SF d)).

Definition is_pos_zero (f : float) : bool := is_zero f && negb (get_sign f).
Definition is_neg_zero (f : float) : bool := is_zero f && get_sign f.

End Number.

(** ** The Math object *)

Module Math.

Definition PI : float := 3.141592653589793.

(** [Math.max(...l)]: the loop of ECMA-262 21.3.2.24 over the argument list,
    starting from -Infinity; a NaN argument gives NaN and +0 is preferred to -0. *)
Fixpoint max_from (highest : float) (l : list float) : float :=
  match l with
  | [] => highest
  | number :: rest =>
      if is_nan number then nan
      else if Number.is_pos_zero number && Number.is_neg_zero highest
      then max_from number rest
      else if highest <? number then max_from number rest
      else max_from highest rest
  end.

Definition max (l : list float) : float := max_from neg_infinity l.

(** [Math.min(...l)]: the loop of ECMA-262 21.3.2.25, starting from +Infinity;
    a NaN argument gives NaN and -0 is preferred to +0. *)
Fixpoint min_from (lowest : float) (l : list float) : float :=
  match l with
  | [] => lowest
  | number :: rest =>
      if is_nan number then nan
      else if Number.is_neg_zero number && Number.is_pos_zero lowest
      then min_from number rest
      else if number <? lowest then min_from number rest
      else min_from lowest rest
  end.

Definition min (l : list float) : float := min_from infinity l.

(** [Math.sin], [Math.pow] and [Math.exp] are implementation-approximated
    (ECMA-262 21.3.2): the engine supplies them. They are a parameter of
    the model. *)
Record impl : Type := {
  sin : float -> float;
  pow : float -> float -> float;
  exp : float -> float
}.

(** The values ECMA-262 fixes exactly, as far as the waveform needs them:
    [Math.sin(+0)] is [+0], [Math.pow(+0, y)] is [+0] for [y > 0], and
    [Math.exp] of either zero is [1]. *)
Record conforming (m : impl) : Prop := {
  sin_pos_zero : sin m 0 = 0;
  pow_pos_zero : forall y, (0 <? y) = true -> pow m 0 y = 0;
  exp_zero : forall z, is_zero z = true -> exp m z = 1
}.

End Math.

(** ** Completions

    A call either returns a value or throws. The three errors are the ones
    the specification names. *)

Inductive EngineError := InvalidParameter | NumericalInstability | InvalidInput.

Inductive completion (A : Type) : Type :=
| Normal (v : A)
| Throw (e : EngineError).
Arguments Normal {A} v.
Arguments Throw {A} e.

(** ** Data *)

(** The parameter object of [getParamsFromUI]. *)
Record Params := {
  hr : float;
  edv : float;
  esv : float;
  autoEsv : bool;
  contr : float;
  svr : float;
  comp : float;
  rap : float;
  Emax : float;
  Emin : float;
  V0 : float
}.

(** The options object. The two counts are integer-valued Numbers; they are
    kept as integers, and the loop counter with them. Number arithmetic on
    them is exact as long as [beats * stepsPerBeat] stays below 2^53. *)
Record Opts := {
  stepsPerBeat : Z;
  beats : Z
}.

(** [{tFrac, P_art, P_lv, V_lv}], an element of [traceP]. *)
Module Sample.
Record t := mk { tFrac : float; P_art : float; P_lv : float; V_lv : float }.
End Sample.

(** [{x, y}], an element of [pvPoints]. *)
Module Point.
Record t := mk { x : float; y : float }.
End Point.

(** The mutable locals of [runSimulation]. *)
Module Frame.
Record t := mk {
  V_lv : float;
  P_art : float;
  traceP : list Sample.t;
  pvPoints : list Point.t
}.
Definition set_P_art (fr : t) (v : float) : t :=
  mk (V_lv fr) v (traceP fr) (pvPoints fr).
Definition set_V_lv (fr : t) (v : float) : t :=
  mk v (P_art fr) (traceP fr) (pvPoints fr).
Definition push (fr : t) (s : Sample.t) (q : Point.t) : t :=
  mk (V_lv fr) (P_art fr) (traceP fr ++ [s]) (pvPoints fr ++ [q]).
End Frame.

(** The nine summary metrics. *)
Module Metrics.
Record t := mk {
  EDV : float; ESV : float; SV : float; CO : float; MAP : float;
  SBP : float; DBP : float; PP : float; EF : float
}.
End Metrics.

(** The object [runSimulation] returns. *)
Module Sim.
Record t := mk {
  traceP : list Sample.t;
  pvPoints : list Point.t;
  metrics : Metrics.t
}.
End Sim.

(** ** The elastance waveform

    The text of [normalizedElastance] uses a comparison, three arithmetic
    operators, five decimal literals and four members of [Math]. It is
    embedded once, over an arithmetic that supplies these, and read twice:
    over the Numbers of the program, and over the real numbers, where the
    statements about its limits live. *)

Module Waveform.

Record arith : Type := {
  num : Type;
  literal : Z -> Z -> num;      (* the decimal literal of value n / d *)
  PI : num;                     (* Math.PI *)
  ltb : num -> num -> bool;     (* a < b *)
  neg : num -> num;             (* -a *)
  sub : num -> num -> num;      (* a - b *)
  mul : num -> num -> num;      (* a * b *)
  div : num -> num -> num;      (* a / b *)
  sin : num -> num;             (* Math.sin *)
  pow : num -> num -> num;      (* Math.pow *)
  exp : num -> num              (* Math.exp *)
}.

(* function normalizedElastance(tFrac) *)
Definition normalizedElastance (A : arith) (tFrac : num A) : num A :=
  let ts := literal A 33 100 in                         (* const ts = 0.33 *)
  if ltb A tFrac ts then
    let x := div A tFrac ts in
    pow A (sin A (mul A (PI A) x)) (literal A 15 10)    (* 1.5 *)
  else
    let x := div A (sub A tFrac ts) (sub A (literal A 1 1) ts) in
    mul A (literal A 5 100)                             (* 0.05 *)
          (exp A (mul A (neg A (literal A 3 1)) x)).    (* -3 * x *)

End Waveform.

(** ** The model functions *)

Section Model.

Variable M : Math.impl.

Definition ts : float := 0.33.

(** The arithmetic of the program: Numbers, with the engine's [Math]. A
    decimal literal is the Number nearest to its value, which the division
    of the two integers gives, itself rounded to nearest. *)
Definition doubles : Waveform.arith := {|
  Waveform.num := float;
  Waveform.literal := fun n d => Number.of_Z n / Number.of_Z d;
  Waveform.PI := Math.PI;
  Waveform.ltb := PrimFloat.ltb;
  Waveform.neg := PrimFloat.opp;
  Waveform.sub := PrimFloat.sub;
  Waveform.mul := PrimFloat.mul;
  Waveform.div := PrimFloat.div;
  Waveform.sin := Math.sin M;
  Waveform.pow := Math.pow M;
  Waveform.exp := Math.exp M
|}.

(** [normalizedElastance] as the program runs it. *)
Definition normalizedElastance (tFrac : float) : float :=
  Waveform.normalizedElastance doubles tFrac.

(* function valveFlow(P_up, P_down, Rval) *)
Definition valveFlow (P_up P_down Rval : float) : float :=
  let dP := P_up - P_down in
  if dP <=? 0 then 0 else dP / Rval.

(* function svr_to_Rperipheral(svr) *)
Definition svr_to_Rperipheral (svr : float) : float := (svr / 80.0) / 60.0.

Definition Zc : float := 0.01.
Definition Rval_mitral : float := 0.005.
Definition Rval_aortic : float := 0.0025.

Definition dt (p : Params) (o : Opts) : float :=
  (60.0 / hr p) / Number.of_Z (stepsPerBeat o).

Definition R_per (p : Params) : float := svr_to_Rperipheral (svr p).

Definition totalSteps (o : Opts) : Z := (beats o * stepsPerBeat o)%Z.

(** The body of the [for] loop, statement by statement. *)
Definition loopBody (p : Params) (o : Opts) (step : Z) (fr : Frame.t) : Frame.t :=
  let t := Number.of_Z step * dt p o in
  let T := 60.0 / hr p in
  let tFrac := Number.rem t T / T in
  let En := normalizedElastance tFrac in
  let E_t := Emin p + (Emax p - Emin p) * En in
  let P_lv := E_t * Math.max [0; Frame.V_lv fr - V0 p] in
  let Qin := valveFlow (rap p) P_lv Rval_mitral in
  let Qout := valveFlow P_lv (Frame.P_art fr) Rval_aortic in
  let dPdt := (Qout - (Frame.P_art fr / R_per p)) / comp p in
  (* P_art += dPdt * dt *)
  let fr := Frame.set_P_art fr (Frame.P_art fr + dPdt * dt p o) in
  (* V_lv += (Qin - Qout) * dt *)
  let fr := Frame.set_V_lv fr (Frame.V_lv fr + (Qin - Qout) * dt p o) in
  if (totalSteps o - stepsPerBeat o <=? step)%Z then
    Frame.push fr
      (Sample.mk tFrac (Frame.P_art fr) P_lv (Frame.V_lv fr))
      (Point.mk (Frame.V_lv fr) P_lv)
  else fr.

(** [for(let step = start; ...; step++)], [n] iterations. *)
Fixpoint forLoop (p : Params) (o : Opts) (n : nat) (step : Z) (fr : Frame.t) : Frame.t :=
  match n with
  | O => fr
  | S n' => forLoop p o n' (step + 1)%Z (loopBody p o step fr)
  end.

(** The locals at loop entry. *)
Definition initialFrame (p : Params) : Frame.t :=
  Frame.mk (edv p) 90 [] [].

(** Lines 169-183: the summary metrics of the last-beat trace. The array
    [Vvals] of line 170 and [P_lv_vals] of line 174 are built and never
    read; they are left out. *)
Definition summaryMetrics (p : Params) (traceP : list Sample.t) : completion Metrics.t :=
  let Vlast := map Sample.V_lv traceP in
  let P_art_vals := map Sample.P_art traceP in
  let EDV := Math.max Vlast in
  let ESV := Math.min Vlast in
  let SV := Math.max [0; EDV - ESV] in
  let CO := hr p * SV / 1000.0 in
  let MAP := fold_left add P_art_vals 0 / Number.of_Z (Z.of_nat (length P_art_vals)) in
  let SBP := Math.max P_art_vals in
  let DBP := Math.min P_art_vals in
  let PP := SBP - DBP in
  let EF := if 0 <? EDV then (SV / EDV) * 100.0 else 0.0 in
  Normal (Metrics.mk EDV ESV SV CO MAP SBP DBP PP EF).

(* function runSimulation(params, opts) *)
Definition runSimulation (p : Params) (o : Opts) : completion Sim.t :=
  let fr := forLoop p o (Z.to_nat (totalSteps o)) 0%Z (initialFrame p) in
  match summaryMetrics p (Frame.traceP fr) with
  | Normal m => Normal (Sim.mk (Frame.traceP fr) (Frame.pvPoints fr) m)
  | Throw e => Throw e
  end.

(** *** The run, step by step

    The quantities of one iteration as functions of the state before it,
    and the sequence of the states; the statements below are about these. *)

(** [tFrac] at a step. *)
Definition phaseAt (p : Params) (o : Opts) (step : Z) : float :=
  let t := Number.of_Z step * dt p o in
  let T := 60.0 / hr p in
  Number.rem t T / T.

(** [P_lv] at phase [tFrac] and ventricular volume [V]. *)
Definition ventricularPressure (p : Params) (tFrac V : float) : float :=
  (Emin p + (Emax p - Emin p) * normalizedElastance tFrac) * Math.max [0; V - V0 p].

(** [Qin] and [Qout] at phase [tFrac] in the state [(V, P)]. *)
Definition mitralFlow (p : Params) (tFrac V : float) : float :=
  valveFlow (rap p) (ventricularPressure p tFrac V) Rval_mitral.

Definition aorticFlow (p : Params) (tFrac V P : float) : float :=
  valveFlow (ventricularPressure p tFrac V) P Rval_aortic.

(** The state [(V_lv, P_art)] after the iteration [step], from the state
    before it. *)
Definition advance (p : Params) (o : Opts) (step : Z) (s : float * float) : float * float :=
  let '(V, P) := s in
  let tFrac := phaseAt p o step in
  (V + (mitralFlow p tFrac V - aorticFlow p tFrac V P) * dt p o,
   P + ((aorticFlow p tFrac V P - P / R_per p) / comp p) * dt p o).

(** The state before the iteration [k], counted from the entry of the loop. *)
Fixpoint stateAt (p : Params) (o : Opts) (k : nat) : float * float :=
  match k with
  | O => (edv p, 90)
  | S k' => advance p o (Z.of_nat k') (stateAt p o k')
  end.

(** The sample of the iteration [k]: the phase and the ventricular pressure
    of the step, and the two state variables after it. *)
Definition sampleAt (p : Params) (o : Opts) (k : nat) : Sample.t :=
  let tFrac := phaseAt p o (Z.of_nat k) in
  Sample.mk tFrac (snd (stateAt p o (S k)))
    (ventricularPressure p tFrac (fst (stateAt p o k)))
    (fst (stateAt p o (S k))).

(** The steps whose sample the loop keeps: [step >= totalSteps - stepsPerBeat]. *)
Definition kept (o : Opts) (k : nat) : bool :=
  (totalSteps o - stepsPerBeat o <=? Z.of_nat k)%Z.

End Model.

(** The point of the PV loop that goes with a sample. *)
Definition pointOf (s : Sample.t) : Point.t :=
  Point.mk (Sample.V_lv s) (Sample.P_lv s).

(** The steps of the last beat, in increasing order. *)
Definition lastBeat (o : Opts) : list nat :=
  seq (Z.to_nat (totalSteps o - stepsPerBeat o))
      (Z.to_nat (totalSteps o) - Z.to_nat (totalSteps o - stepsPerBeat o)).

(** ** A reference Math implementation

    One concrete choice of the three approximated functions, built from
    Number arithmetic only, so that runs of the model can be evaluated.
    The special values are those of ECMA-262; elsewhere the functions are
    truncated series. *)

Module RefMath.

(** [acc + term_0 + term_1 + ...], where [term_(k+1) = next k term_k],
    over [n] terms. *)
Fixpoint series (next : float -> float -> float) (n : nat) (k term acc : float) : float :=
  match n with
  | O => acc
  | S n' => series next n' (k + 1) (next k term) (acc + term)
  end.

Definition sin (x : float) : float :=
  if is_nan x || is_infinity x then nan
  else if is_zero x then x
  else
    let twoPI := 2 * Math.PI in
    let r := Number.rem x twoPI in
    let r := if Math.PI <? r then r - twoPI
             else if r <? - Math.PI then r + twoPI else r in
    (* r - r^3/3! + r^5/5! - ... *)
    series (fun k term => - (term * r * r) / ((2 * k + 2) * (2 * k + 3))) 16 0 r 0.

Fixpoint square_times (n : nat) (y : float) : float :=
  match n with
  | O => y
  | S n' => square_times n' (y * y)
  end.

Definition exp (x : float) : float :=
  if is_nan x then nan
  else if is_zero x then 1
  else if is_infinity x then (if x <? 0 then 0 else infinity)
  else
    let r := x / 1024 in
    (* exp x = (exp (x / 2^10)) ^ (2^10) *)
    square_times 10 (series (fun k term => term * r / (k + 1)) 20 0 1 0).

Definition LN2 : float := 0.6931471805599453.

(** The natural logarithm of a positive finite Number. *)
Definition ln (x : float) : float :=
  let '(m, e) := Z.frexp x in
  (* x = m * 2^e with 1/2 <= m < 1, and ln m = 2 atanh ((m - 1) / (m + 1)) *)
  let z := (m - 1) / (m + 1) in
  Number.of_Z e * LN2
  + 2 * series (fun k term => term * z * z * (2 * k + 1) / (2 * k + 3)) 24 0 z 0.

Definition is_integer (y : float) : bool := Number.rem y 1 =? 0.
Definition is_odd_integer (y : float) : bool := abs (Number.rem y 2) =? 1.

(** Number::exponentiate of ECMA-262 6.1.6.1.3, with [exp (y * ln b)] for
    the approximated case. *)
Definition pow (b y : float) : float :=
  if is_nan y then nan
  else if is_zero y then 1
  else if is_nan b then nan
  else if is_infinity b then
    if get_sign b then
      if 0 <? y then (if is_odd_integer y then neg_infinity else infinity)
      else (if is_odd_integer y then -0 else 0)
    else (if 0 <? y then infinity else 0)
  else if is_zero b then
    if get_sign b then
      if 0 <? y then (if is_odd_integer y then -0 else 0)
      else (if is_odd_integer y then neg_infinity else infinity)
    else (if 0 <? y then 0 else infinity)
  else if is_infinity y then
    if abs b =? 1 then nan
    else if (1 <? abs b) then (if 0 <? y then infinity else 0)
    else (if 0 <? y then 0 else infinity)
  else if b <? 0 then
    if is_integer y then
      let v := exp (y * ln (- b)) in
      if is_odd_integer y then - v else v
    else nan
  else exp (y * ln b).

Definition impl : Math.impl := {| Math.sin := sin; Math.pow := pow; Math.exp := exp |}.

End RefMath.

(** ** Inputs used in the examples *)

(** The default of the parameter [opts], also the options of the call in
    [simulateAndRender]. *)
Definition defaultOpts : Opts := {| stepsPerBeat := 400; beats := 8 |}.

(** [presets.normal], with the checkbox [autoEsv] unticked. *)
Definition normal : Params := {|
  hr := 75; edv := 120; esv := 50; autoEsv := false; contr := 0.5;
  svr := 1200; comp := 1.5; rap := 2; Emax := 2.0; Emin := 0.06; V0 := 10
|}.

(** [presets.normal] with [Emax] lowered to [Emin]. *)
Definition flat : Params := {|
  hr := 75; edv := 120; esv := 50; autoEsv := false; contr := 0.5;
  svr := 1200; comp := 1.5; rap := 2; Emax := 0.06; Emin := 0.06; V0 := 10
|}.

(** [presets.normal] with the smallest positive compliance. *)
Definition stiff : Params := {|
  hr := 75; edv := 120; esv := 50; autoEsv := false; contr := 0.5;
  svr := 1200; comp := 0x1p-1074; rap := 2; Emax := 2.0; Emin := 0.06; V0 := 10
|}.

(** The inputs the specification wants rejected. *)
Definition invalidParameters (p : Params) (o : Opts) : Prop :=
  (hr p <=? 0) = true \/ (comp p <=? 0) = true \/ (svr p <=? 0) = true \/
  (stepsPerBeat o <= 0)%Z \/ (beats o <= 0)%Z \/ (Emax p <=? Emin p) = true.

Definition finiteSample (s : Sample.t) : bool :=
  is_finite (Sample.V_lv s) && is_finite (Sample.P_art s).

(** ** Notions used in the proofs *)

Section Notions.

Local Open Scope Z_scope.

(** The signed integers of two finite values on their common exponent. *)
Definition aligned (s : bool) (m : positive) (e ez : Z) : Z :=
  cond_Zopp s (Zpos (fst (shl_align m e ez))).

(** A value that is zero, finite or infinite with the sign [s]. *)
Definition signed (s : bool) (x : spec_float) : Prop :=
  match x with
  | S754_zero s' | S754_infinity s' | S754_finite s' _ _ => s' = s
  | S754_nan => False
  end.

Definition nonzero (x : spec_float) : Prop :=
  match x with S754_zero _ => False | _ => True end.

Definition SFis_nan (x : spec_float) : bool :=
  match x with S754_nan => true | _ => false end.

(** A valid value that is not NaN, as an integer multiple of [2 ^ emin];
    the infinities lie beyond every finite value. *)
Definition SF2Z (x : spec_float) : Z :=
  match x with
  | S754_zero _ | S754_nan => 0
  | S754_infinity s => cond_Zopp s (2 ^ (emax - emin))
  | S754_finite s m e => cond_Zopp s (Zpos m * 2 ^ (e - emin))
  end.

End Notions.

(** The integer of a Number; on the Numbers that are not NaN the order is
    the one of these integers. *)
Definition F2Z (x : float) : Z := SF2Z (Prim2SF x).

Definition no_nan (l : list float) : Prop := forall x, In x l -> is_nan x = false.

Definition all_finite (l : list float) : Prop := forall x, In x l -> is_finite x = true.

(** ** The waveform over the real numbers *)

Module Ideal.
Import Reals.
Local Open Scope R_scope.

(** The power [x^y] of a positive base, and [0] for the base [0] (the
    exponent of the waveform is positive). A negative base, which
    [Math.pow] answers with NaN for the exponent 1.5, gets [0] as well; the
    sine of the waveform is not negative for a phase in [0, ts]. *)
Definition pow (x y : R) : R :=
  if Rlt_dec 0 x then Rpower x y else 0.

(** The arithmetic of the real numbers: the operators are exact, a decimal
    literal is its value, [Math.PI] is the number pi and the members of
    [Math] are the functions they approximate. *)
Definition reals : Waveform.arith := {|
  Waveform.num := R;
  Waveform.literal := fun n d => IZR n / IZR d;
  Waveform.PI := PI;
  Waveform.ltb := fun a b => if Rlt_dec a b then true else false;
  Waveform.neg := Ropp;
  Waveform.sub := Rminus;
  Waveform.mul := Rmult;
  Waveform.div := Rdiv;
  Waveform.sin := sin;
  Waveform.pow := pow;
  Waveform.exp := exp
|}.

(** [normalizedElastance] in exact arithmetic. *)
Definition exactElastance (tFrac : R) : R :=
  Waveform.normalizedElastance reals tFrac.

(** The systolic fraction, the phase at which a beat begins and the
    diastolic tone: the literals [0.33], [0] and [0.05]. *)
Definition ts : R := 33 / 100.
Definition onset : R := 0.
Definition tone : R := 5 / 100.

(** [f] is the function [sin(pi * t / ts)^(3/2)] between [0] and [ts]. *)
Definition systolic (f : R -> R) : Prop :=
  forall t, 0 < t < ts -> f t = Rpower (sin (PI * (t / ts))) (3 / 2).

(** [f] tends to [0] at [a] from below. *)
Definition vanishes_from_below (f : R -> R) (a : R) : Prop :=
  forall eps, 0 < eps ->
  exists delta, 0 < delta /\ forall t, a - delta < t < a -> Rabs (f t) < eps.

End Ideal.

(** ** The caller [simulateAndRender]

    Lines 335-343: from the parameter object read from the page to the
    object passed to [runSimulation]. The reads and writes of the page
    around it are left out. *)

(** Line 339: the elastance derived from the contractility. *)
Definition autoEmax (contr : float) : float :=
  0.5 + (contr - 0.1) / (1.0 - 0.1) * 4.0.

(** Lines 337-341: [params] after the [if]. *)
Definition simulationParams (p : Params) : Params :=
  if autoEsv p then
    {| hr := hr p; edv := edv p; esv := esv p; autoEsv := autoEsv p; contr := contr p;
       svr := svr p; comp := comp p; rap := rap p; Emax := autoEmax (contr p);
       Emin := Emin p; V0 := V0 p |}
  else p.

(** Line 343: the simulation that is rendered. *)
Definition simulate (M : Math.impl) (p : Params) : completion Sim.t :=
  runSimulation M (simulationParams p) {| stepsPerBeat := 400; beats := 8 |}.

(** The fields of the parameter object that [runSimulation] reads. *)
Definition engineInputs (p : Params) : list float :=
  [hr p; edv p; svr p; comp p; rap p; Emax p; Emin p; V0 p].

(** A spec float that is NaN, [+0], positive or [+Infinity]. *)
Definition nn (x : spec_float) : Prop := x = S754_nan \/ signed false x.

(** ** Scenarios: export and import, save and load

    The four functions of lines 270-330 exchange the parameter object with
    a file or with the local storage as JSON text. They are embedded on the
    parsed values, with what they do to the page as a list of effects. The
    members of [inputs] are the input elements of the page: their [value]
    is a string, and an assignment to it converts the assigned value. *)

Module Scenario.
Import String.
Local Open Scope string_scope.

(** The values of [JSON.parse]. An object is the list of its own
    properties. *)
Inductive json : Type :=
| JNull
| JBool (b : bool)
| JNum (n : float)
| JStr (s : string)
| JArr (items : list json)
| JObj (fields : list (string * json)).

(** ToBoolean, as [if (v)] and [v || w] apply it. *)
Definition truthy (v : json) : bool :=
  match v with
  | JNull => false
  | JBool b => b
  | JNum n => negb (is_zero n || is_nan n)
  | JStr s => negb (s =? "")
  | JArr _ | JObj _ => true
  end.

Fixpoint lookup (fields : list (string * json)) (key : string) : option json :=
  match fields with
  | [] => None
  | (k, v) :: rest => if k =? key then Some v else lookup rest key
  end.

(** [v.key] for a value other than [null], [None] being [undefined]. The
    keys read by the code are no properties of numbers, strings, booleans
    or arrays. *)
Definition member (v : json) (key : string) : option json :=
  match v with
  | JObj fields => lookup fields key
  | _ => None
  end.

(** The controls of [inputs] that hold a parameter. *)
Inductive control : Set :=
| hr_ | edv_ | esv_ | autoEsv_ | contractility_ | svr_ | compliance_
| rap_ | emax_ | emin_ | v0_.

(** The right-hand side of an assignment to [inputs.x.value]: a value of
    the parsed object, [undefined], or the value the control has. *)
Inductive assigned : Type :=
| FromObject (v : json)
| Undefined
| Current (c : control).

Inductive message : Set :=
| InvalidScenario      (* 'Invalid scenario JSON' *)
| ParseFailed          (* 'Failed to parse file: ' + err *)
| NoSavedScenario      (* 'No saved scenario found.' *)
| ScenarioSaved.       (* 'Scenario saved locally.' *)

Inductive effect : Type :=
| SetValue (c : control) (a : assigned)
| UpdateDisplayParams
| Alert (m : message).

(** [obj.key || inputs.c.value] *)
Definition orCurrent (obj : json) (key : string) (c : control) : assigned :=
  match member obj key with
  | Some v => if truthy v then FromObject v else Current c
  | None => Current c
  end.

(** [obj.key] *)
Definition plain (obj : json) (key : string) : assigned :=
  match member obj key with
  | Some v => FromObject v
  | None => Undefined
  end.

(** ToString of a parsed value, which the assignment to the [value] of a
    control applies (the attribute is a string): [true] when the conversion
    returns, [false] when it throws a TypeError. Numbers, strings and
    booleans convert, and [null] is turned into the empty string. An array
    is joined, which converts its elements. An object converts through the
    [toString] it inherits, unless it has a property of that name of its
    own: coming from JSON this is no function, and then [valueOf], its own
    or the inherited one, gives no primitive value either. *)
Fixpoint toStringReturns (v : json) : bool :=
  match v with
  | JNull | JBool _ | JNum _ | JStr _ => true
  | JArr items => forallb toStringReturns items
  | JObj fields =>
      match lookup fields "toString" with
      | Some _ => false
      | None => true
      end
  end.

(** Whether the assignment of a right-hand side to [inputs.x.value]
    completes. The value read from a control is a string. *)
Definition accepted (a : assigned) : bool :=
  match a with
  | FromObject v => toStringReturns v
  | Undefined | Current _ => true
  end.

(** A sequence of statements [inputs.c.value = a]: the assignments made, up
    to the first one that throws, and whether all of them completed. *)
Fixpoint assignAll (l : list (control * assigned)) : list effect * bool :=
  match l with
  | [] => ([], true)
  | (c, a) :: rest =>
      if accepted a then
        let (made, completed) := assignAll rest in (SetValue c a :: made, completed)
      else ([], false)
  end.

(** Lines 290-299: the ten assignments of the import, in order. *)
Definition importAssignments (obj : json) : list (control * assigned) :=
  [ (hr_, plain obj "hr");
    (edv_, orCurrent obj "edv" edv_);
    (esv_, orCurrent obj "esv" esv_);
    (contractility_, orCurrent obj "contr" contractility_);
    (svr_, orCurrent obj "svr" svr_);
    (compliance_, orCurrent obj "comp" compliance_);
    (rap_, orCurrent obj "rap" rap_);
    (emax_, orCurrent obj "Emax" emax_);
    (emin_, orCurrent obj "Emin" emin_);
    (v0_, orCurrent obj "V0" v0_) ].

(** Lines 285-305, the handler of [importScenarioFile], from the result of
    [JSON.parse] on the text of the file ([None] when it throws). Reading
    [obj.hr] of [null] throws as well, and so does an assignment whose
    value does not convert to a string: all inside the same [try], whose
    [catch] raises the alert. The assignments made before the one that
    throws stay. *)
Definition importHandler (parsed : option json) : list effect :=
  match parsed with
  | None | Some JNull => [Alert ParseFailed]
  | Some obj =>
      if match member obj "hr" with Some h => truthy h | None => false end then
        match assignAll (importAssignments obj) with
        | (made, true) => made ++ [UpdateDisplayParams]
        | (made, false) => made ++ [Alert ParseFailed]
        end
      else [Alert InvalidScenario]
  end.

(** A Number after [JSON.stringify] and [JSON.parse]: a finite Number comes
    back ([-0] as [0]), NaN and the infinities come back as [null]. *)
Definition jnum (n : float) : json :=
  if is_finite n then JNum (if is_zero n then 0 else n) else JNull.

(** The value of the text [JSON.stringify(p)] of the object of
    [getParamsFromUI], which [exportScenario] puts in the file and
    [saveScenarioToLocal] in the storage. *)
Definition stringified (p : Params) : json :=
  JObj [ ("hr", jnum (hr p)); ("edv", jnum (edv p)); ("esv", jnum (esv p));
         ("autoEsv", JBool (autoEsv p)); ("contr", jnum (contr p));
         ("svr", jnum (svr p)); ("comp", jnum (comp p)); ("rap", jnum (rap p));
         ("Emax", jnum (Emax p)); ("Emin", jnum (Emin p)); ("V0", jnum (V0 p)) ].

(** How a call ends: normally, or with an exception that nothing catches,
    after the effects it had until then. *)
Inductive exception : Set := SyntaxError | TypeError.

Inductive outcome : Type :=
| Done (effects : list effect)
| Uncaught (e : exception) (effects : list effect).

(** Lines 319-328: the ten assignments of the load, in order. *)
Definition loadAssignments (obj : json) : list (control * assigned) :=
  [ (hr_, plain obj "hr");
    (edv_, plain obj "edv");
    (esv_, plain obj "esv");
    (contractility_, plain obj "contr");
    (svr_, plain obj "svr");
    (compliance_, plain obj "comp");
    (rap_, plain obj "rap");
    (emax_, plain obj "Emax");
    (emin_, plain obj "Emin");
    (v0_, plain obj "V0") ].

(** Lines 315-330, [loadScenarioFromLocal], from the stored item: [None]
    when [getItem] gives [null] or the empty string, else the result of
    [JSON.parse] on it ([None] when it throws). There is no [try]: reading
    [obj.hr] of [null], or an assignment whose value does not convert to a
    string, ends the call. *)
Definition loadScenarioFromLocal (item : option (option json)) : outcome :=
  match item with
  | None => Done [Alert NoSavedScenario]
  | Some None => Uncaught SyntaxError []
  | Some (Some JNull) => Uncaught TypeError []
  | Some (Some obj) =>
      match assignAll (loadAssignments obj) with
      | (made, true) => Done (made ++ [UpdateDisplayParams])
      | (made, false) => Uncaught TypeError made
      end
  end.

(** The controls that a list of effects assigns, in order. *)
Fixpoint assignedControls (l : list effect) : list control :=
  match l with
  | [] => []
  | SetValue c _ :: rest => c :: assignedControls rest
  | _ :: rest => assignedControls rest
  end.

(** A Number that [x || y] keeps and JSON carries: finite and not zero. *)
Definition carried (n : float) : bool := is_finite n && negb (is_zero n).

(** What a control is assigned when the file holds the Number [n] of an
    exported scenario under its key. *)
Definition restored (n : float) (c : control) : assigned :=
  if carried n then FromObject (JNum n) else Current c.

(** The ten controls that hold a parameter, in the order of lines 290-299. *)
Definition parameterControls : list control :=
  [hr_; edv_; esv_; contractility_; svr_; compliance_; rap_; emax_; emin_; v0_].

(** The effects of a sequence of assignments that all complete. *)
Definition setValues (l : list (control * assigned)) : list effect :=
  map (fun ca => SetValue (fst ca) (snd ca)) l.

End Scenario.

(** * Proofs *)

(** ** The embedding on known values *)

Example of_Z_values :
  Number.of_Z 400 = 400 /\ Number.of_Z (-3) = -3 /\
  Number.of_Z 9007199254740993 = 9007199254740992.
Proof. repeat split. Qed.

Example rem_values :
  Number.rem 5.5 2 = 1.5 /\ Number.rem (-5.5) 2 = -1.5 /\ Number.rem 5.5 (-2) = 1.5 /\
  Number.rem (-4) 2 = -0 /\ Number.rem 1 infinity = 1 /\
  Number.rem 1 0 = nan /\ Number.rem infinity 1 = nan.
Proof. repeat split. Qed.

Example max_min_values :
  Math.max [] = neg_infinity /\ Math.min [] = infinity /\
  Math.max [-0; 0] = 0 /\ Math.max [0; -0] = 0 /\ Math.min [0; -0] = -0 /\
  Math.max [1; nan; 3] = nan /\ Math.max [0; -5] = 0.
Proof. repeat split. Qed.

(** The five literals of [normalizedElastance], as Numbers. *)
Example waveform_literals (M : Math.impl) :
  Waveform.literal (doubles M) 33 100 = 0.33 /\
  Waveform.literal (doubles M) 15 10 = 1.5 /\
  Waveform.literal (doubles M) 1 1 = 1 /\
  Waveform.literal (doubles M) 5 100 = 0.05 /\
  Waveform.neg (doubles M) (Waveform.literal (doubles M) 3 1) = -3.
Proof. repeat split. Qed.

Example svr_to_Rperipheral_1200 : svr_to_Rperipheral 1200 = 0.25.
Proof. reflexivity. Qed.

Example valveFlow_values :
  valveFlow 2 6.6 Rval_mitral = 0 /\ valveFlow 90 80 Rval_aortic = 4000.
Proof. split; reflexivity. Qed.

(** ** Facts on binary64 spec floats *)

Section SpecFloatFacts.

Local Open Scope Z_scope.

Lemma digits2_pos_bounds (m : positive) :
  2 ^ (Zpos (digits2_pos m) - 1) <= Zpos m < 2 ^ Zpos (digits2_pos m).
Proof.
  induction m as [m IH | m IH | ]; cbn [digits2_pos].
  - rewrite Pos2Z.inj_succ.
    replace (Z.succ (Zpos (digits2_pos m)) - 1) with (Z.succ (Zpos (digits2_pos m) - 1)) by lia.
    rewrite !Z.pow_succ_r by lia. lia.
  - rewrite Pos2Z.inj_succ.
    replace (Z.succ (Zpos (digits2_pos m)) - 1) with (Z.succ (Zpos (digits2_pos m) - 1)) by lia.
    rewrite !Z.pow_succ_r by lia. lia.
  - cbn. lia.
Qed.

Lemma iter_xO_val (m d : positive) : Zpos (Pos.iter xO m d) = Zpos m * 2 ^ Zpos d.
Proof.
  induction d as [ | d IH] using Pos.peano_ind.
  - cbn. lia.
  - rewrite Pos.iter_succ, Pos2Z.inj_succ, Z.pow_succ_r by lia.
    rewrite Pos2Z.inj_xO, IH. lia.
Qed.

Lemma shl_align_val (m : positive) (e ez : Z) :
  ez <= e -> Zpos (fst (shl_align m e ez)) = Zpos m * 2 ^ (e - ez).
Proof.
  intros Hle. unfold shl_align.
  destruct (ez - e) as [ | d | d] eqn:Hd.
  - replace (e - ez) with 0 by lia. cbn [fst]. lia.
  - lia.
  - cbn [fst]. rewrite iter_xO_val. f_equal. f_equal. lia.
Qed.

(** What validity says of a finite binary64 value. *)
Lemma bounded_inv (m : positive) (e : Z) :
  bounded prec emax m e = true ->
  emin <= e /\ Zpos (digits2_pos m) <= prec /\
  (emin < e -> Zpos (digits2_pos m) = prec).
Proof.
  unfold bounded, canonical_mantissa, fexp, SpecFloat.emin, prec, emax.
  rewrite andb_true_iff, Z.eqb_eq, Z.leb_le. lia.
Qed.

(** A valid mantissa is below [2 ^ prec]; moved to a smaller exponent that
    is not below [emin], it is at least [2 ^ prec]. *)
Lemma mantissa_lt (m : positive) (e : Z) :
  bounded prec emax m e = true -> Zpos m < 2 ^ prec.
Proof.
  intros Hb. apply bounded_inv in Hb. destruct Hb as (_ & Hd & _).
  pose proof (digits2_pos_bounds m) as Dm.
  assert (2 ^ Zpos (digits2_pos m) <= 2 ^ prec) by (apply Z.pow_le_mono_r; lia).
  lia.
Qed.

Lemma mantissa_shifted_ge (m : positive) (e e' : Z) :
  bounded prec emax m e = true -> emin <= e' < e -> 2 ^ prec <= Zpos m * 2 ^ (e - e').
Proof.
  intros Hb He. apply bounded_inv in Hb. destruct Hb as (_ & _ & Hd).
  pose proof (digits2_pos_bounds m) as Dm. rewrite Hd in Dm by lia.
  replace prec with (Z.succ (prec - 1)) at 1 by lia.
  rewrite Z.pow_succ_r by (unfold prec; lia).
  assert (2 ^ 1 <= 2 ^ (e - e')) by (apply Z.pow_le_mono_r; lia).
  change (2 ^ 1) with 2 in *. nia.
Qed.

(** Aligned on the smaller exponent, two valid mantissas compare as the
    values do. *)
Lemma compare_aligned (ma mb : positive) (ea eb : Z) :
  bounded prec emax ma ea = true -> bounded prec emax mb eb = true ->
  match ea ?= eb with
  | Lt => Lt | Gt => Gt | Eq => Pos.compare_cont Eq ma mb
  end =
  (Zpos (fst (shl_align ma ea (Z.min ea eb))) ?= Zpos (fst (shl_align mb eb (Z.min ea eb)))).
Proof.
  intros Ha Hb.
  pose proof (bounded_inv ma ea Ha) as (Ea & _). pose proof (bounded_inv mb eb Hb) as (Eb & _).
  pose proof (mantissa_lt ma ea Ha) as La. pose proof (mantissa_lt mb eb Hb) as Lb.
  rewrite !shl_align_val by lia.
  destruct (Z.compare_spec ea eb) as [Heq | Hlt | Hgt].
  - subst eb. rewrite Z.min_id, Z.sub_diag, !Z.mul_1_r. reflexivity.
  - symmetry. apply Z.compare_lt_iff.
    rewrite Z.min_l by lia. rewrite Z.sub_diag, Z.mul_1_r.
    pose proof (mantissa_shifted_ge mb eb ea Hb). lia.
  - symmetry. apply Z.compare_gt_iff.
    rewrite Z.min_r by lia. rewrite Z.sub_diag, Z.mul_1_r.
    pose proof (mantissa_shifted_ge ma ea eb Ha). lia.
Qed.

Lemma SFcompare_finite (sa sb : bool) (ma mb : positive) (ea eb : Z) :
  bounded prec emax ma ea = true -> bounded prec emax mb eb = true ->
  SFcompare (S754_finite sa ma ea) (S754_finite sb mb eb) =
  Some (aligned sa ma ea (Z.min ea eb) ?= aligned sb mb eb (Z.min ea eb)).
Proof.
  intros Ha Hb. pose proof (compare_aligned ma mb ea eb Ha Hb) as H.
  unfold aligned, SFcompare.
  destruct sa, sb; cbn [cond_Zopp].
  - rewrite Z.compare_opp.
    rewrite (Z.compare_antisym (Zpos (fst (shl_align ma ea (Z.min ea eb))))), <- H.
    destruct (ea ?= eb); reflexivity.
  - reflexivity.
  - reflexivity.
  - rewrite <- H. reflexivity.
Qed.

(** *** Rounding never changes the sign *)

Lemma shr_1_m (r : shr_record) : 0 <= shr_m r -> shr_m (shr_1 r) = shr_m r / 2.
Proof.
  destruct r as [m b s]. cbn [shr_m]. intros Hm.
  destruct m as [ | [q | q | ] | q]; cbn [shr_1 shr_m]; try lia; try reflexivity.
  - rewrite Pos2Z.inj_xI. apply Z.div_unique with (r := 1); lia.
  - rewrite Pos2Z.inj_xO. apply Z.div_unique with (r := 0); lia.
Qed.

Lemma iter_shr_1_m (p : positive) :
  forall r, 0 <= shr_m r -> shr_m (iter_pos shr_1 p r) = shr_m r / 2 ^ Zpos p.
Proof.
  assert (Hnn : forall r, 0 <= shr_m r -> 0 <= shr_m (shr_1 r)).
  { intros r Hr. rewrite shr_1_m by exact Hr. apply Z.div_pos; lia. }
  induction p as [p IH | p IH | ]; intros r Hr; cbn [iter_pos].
  - assert (H1 : 0 <= shr_m (iter_pos shr_1 p (shr_1 r))).
    { rewrite IH by auto. apply Z.div_pos; [auto | lia]. }
    rewrite IH by exact H1. rewrite IH by auto. rewrite shr_1_m by exact Hr.
    rewrite !Z.div_div by lia. f_equal.
    rewrite Pos2Z.inj_xI, Z.pow_add_r, Z.pow_mul_r by lia.
    change (2 ^ 2) with 4. change (2 ^ 1) with 2.
    replace (4 ^ Zpos p) with (2 ^ Zpos p * 2 ^ Zpos p).
    + lia.
    + rewrite <- Z.pow_add_r by lia. replace (Zpos p + Zpos p) with (2 * Zpos p) by lia.
      rewrite Z.pow_mul_r by lia. reflexivity.
  - assert (H1 : 0 <= shr_m (iter_pos shr_1 p r)).
    { rewrite IH by auto. apply Z.div_pos; [auto | lia]. }
    rewrite IH by exact H1. rewrite IH by auto.
    rewrite !Z.div_div by lia. f_equal.
    rewrite Pos2Z.inj_xO, <- Z.pow_add_r by lia. f_equal. lia.
  - rewrite shr_1_m by exact Hr. reflexivity.
Qed.

Lemma shr_record_of_loc_m (m : Z) (l : location) : shr_m (shr_record_of_loc m l) = m.
Proof. destruct l as [ | [ | | ]]; reflexivity. Qed.

(** Shifting to the canonical exponent keeps a mantissa non-negative, and
    positive when the exponent is not below the minimal one. *)
Lemma shr_fexp_nonneg (m e : Z) (l : location) :
  0 <= m -> 0 <= shr_m (fst (shr_fexp prec emax m e l)).
Proof.
  intros Hm. unfold shr_fexp, shr.
  destruct (fexp prec emax (Zdigits2 m + e) - e) as [ | p | p]; cbn [fst];
    rewrite ?iter_shr_1_m; rewrite ?shr_record_of_loc_m; try lia.
  apply Z.div_pos; lia.
Qed.

Lemma shr_fexp_pos (m e : Z) (l : location) :
  0 < m -> emin <= e ->
  0 < shr_m (fst (shr_fexp prec emax m e l)) /\ emin <= snd (shr_fexp prec emax m e l).
Proof.
  intros Hm He. unfold shr_fexp, shr.
  destruct (fexp prec emax (Zdigits2 m + e) - e) as [ | p | p] eqn:Hn; cbn [fst snd];
    rewrite ?shr_record_of_loc_m; try (split; lia).
  rewrite iter_shr_1_m by (rewrite shr_record_of_loc_m; lia).
  rewrite shr_record_of_loc_m. split; [ | lia].
  destruct m as [ | q | q]; try lia. cbn [Zdigits2] in Hn.
  pose proof (digits2_pos_bounds q) as Dq.
  unfold fexp, SpecFloat.emin, prec, emax in *.
  assert (Hp : Zpos p <= Zpos (digits2_pos q) - 1) by lia.
  assert (2 ^ Zpos p <= 2 ^ (Zpos (digits2_pos q) - 1)) by (apply Z.pow_le_mono_r; lia).
  apply Z.div_str_pos. lia.
Qed.

Lemma round_nearest_even_ge (m : Z) (l : location) : m <= round_nearest_even m l.
Proof.
  unfold round_nearest_even. destruct l as [ | [ | | ]]; try lia.
  destruct (Z.even m); lia.
Qed.

Lemma binary_round_aux_signed (s : bool) (m e : Z) (l : location) :
  0 <= m -> signed s (binary_round_aux prec emax s m e l).
Proof.
  intros Hm. unfold binary_round_aux.
  pose proof (shr_fexp_nonneg m e l Hm) as H1.
  destruct (shr_fexp prec emax m e l) as [r1 e1]. cbn [fst] in H1.
  pose proof (round_nearest_even_ge (shr_m r1) (loc_of_shr_record r1)) as H2.
  pose proof (shr_fexp_nonneg (round_nearest_even (shr_m r1) (loc_of_shr_record r1)) e1 loc_Exact) as H3.
  destruct (shr_fexp prec emax _ e1 loc_Exact) as [r2 e2]. cbn [fst] in H3.
  destruct (shr_m r2) as [ | q | q]; cbn [signed].
  - reflexivity.
  - destruct (e2 <=? emax - prec); reflexivity.
  - lia.
Qed.

Lemma binary_round_aux_nonzero (s : bool) (m e : Z) (l : location) :
  0 < m -> emin <= e -> nonzero (binary_round_aux prec emax s m e l).
Proof.
  intros Hm He. unfold binary_round_aux.
  pose proof (shr_fexp_pos m e l Hm He) as [H1 H1'].
  destruct (shr_fexp prec emax m e l) as [r1 e1]. cbn [fst snd] in H1, H1'.
  pose proof (round_nearest_even_ge (shr_m r1) (loc_of_shr_record r1)) as H2.
  pose proof (shr_fexp_pos (round_nearest_even (shr_m r1) (loc_of_shr_record r1)) e1 loc_Exact) as H3.
  destruct (shr_fexp prec emax _ e1 loc_Exact) as [r2 e2]. cbn [fst snd] in H3.
  destruct H3 as [H3 _]; try lia.
  destruct (shr_m r2) as [ | q | q]; try lia.
  destruct (e2 <=? emax - prec); exact I.
Qed.

Lemma binary_round_signed (s : bool) (m : positive) (e : Z) :
  signed s (binary_round prec emax s m e).
Proof.
  unfold binary_round. destruct (shl_align m e _) as [mz ez].
  apply binary_round_aux_signed. lia.
Qed.

Lemma binary_round_nonzero (s : bool) (m : positive) (e : Z) :
  emin <= e -> nonzero (binary_round prec emax s m e).
Proof.
  intros He. unfold binary_round.
  destruct (shl_align m e _) as [mz ez] eqn:Hal.
  apply binary_round_aux_nonzero; [lia | ].
  unfold shl_align in Hal.
  destruct (fexp prec emax (Zpos (digits2_pos m) + e) - e) eqn:Hd;
    injection Hal as <- <-; try exact He.
  unfold fexp, SpecFloat.emin, prec, emax in *. lia.
Qed.

(** The result of rounding the integer [z] at exponent [e]. *)
Lemma binary_normalize_cases (z e : Z) :
  emin <= e ->
  let r := binary_normalize prec emax z e false in
  match z ?= 0 with
  | Eq => r = S754_zero false
  | Lt => signed true r /\ nonzero r
  | Gt => signed false r /\ nonzero r
  end.
Proof.
  intros He. destruct z as [ | q | q]; cbn [Z.compare binary_normalize].
  - reflexivity.
  - split; [apply binary_round_signed | apply binary_round_nonzero; exact He].
  - split; [apply binary_round_signed | apply binary_round_nonzero; exact He].
Qed.

(** *** Subtraction and the order *)

Lemma cond_Zopp_mul (s : bool) (a c : Z) : cond_Zopp s a * c = cond_Zopp s (a * c).
Proof. destruct s; cbn [cond_Zopp]; lia. Qed.

Lemma compare_scale (n m c : Z) : 0 < c -> (n * c ?= m * c) = (n ?= m).
Proof.
  intros Hc. destruct (Z.compare_spec n m).
  - apply Z.compare_eq_iff. subst. reflexivity.
  - apply Z.compare_lt_iff. nia.
  - apply Z.compare_gt_iff. nia.
Qed.

Lemma SF2Z_aligned (s : bool) (m : positive) (e ez : Z) :
  emin <= ez <= e ->
  SF2Z (S754_finite s m e) = aligned s m e ez * 2 ^ (ez - emin).
Proof.
  intros H. unfold aligned. cbn [SF2Z].
  rewrite shl_align_val, cond_Zopp_mul by lia. f_equal.
  rewrite <- Z.mul_assoc, <- Z.pow_add_r by lia. do 2 f_equal. lia.
Qed.

Lemma SF2Z_finite_bounds (s : bool) (m : positive) (e : Z) :
  bounded prec emax m e = true ->
  0 < Zpos m * 2 ^ (e - emin) < 2 ^ (emax - emin).
Proof.
  intros Hb. pose proof (bounded_inv m e Hb) as (H1 & _).
  pose proof (mantissa_lt m e Hb) as Lm.
  assert (He : e <= emax - prec).
  { unfold bounded in Hb. apply andb_true_iff in Hb. destruct Hb as [_ Hb].
    apply Z.leb_le in Hb. exact Hb. }
  assert (Hp : 0 < 2 ^ (e - emin)) by (apply Z.pow_pos_nonneg; lia).
  split; [lia | ].
  assert (H4 : 2 ^ (e - emin) <= 2 ^ (emax - prec - emin)) by (apply Z.pow_le_mono_r; lia).
  replace (emax - emin) with (prec + (emax - prec - emin)) by lia.
  rewrite Z.pow_add_r by (unfold prec, emax, SpecFloat.emin; lia).
  nia.
Qed.

(** On valid values the comparison is the one of the integers. *)
Lemma SFcompare_SF2Z (a b : spec_float) :
  valid_binary a = true -> valid_binary b = true ->
  SFis_nan a = false -> SFis_nan b = false ->
  SFcompare a b = Some (SF2Z a ?= SF2Z b).
Proof.
  intros Va Vb Na Nb.
  assert (Hinf : 0 < 2 ^ (emax - emin)) by (apply Z.pow_pos_nonneg; unfold emax, SpecFloat.emin, prec; lia).
  destruct a as [sa | sa | | sa ma ea], b as [sb | sb | | sb mb eb];
    try discriminate; cbn [valid_binary] in Va, Vb.
  all: try pose proof (SF2Z_finite_bounds sa ma ea Va) as Ba.
  all: try pose proof (SF2Z_finite_bounds sb mb eb Vb) as Bb.
  all: try (cbn [SFcompare SF2Z]; f_equal; symmetry;
            destruct sa; try destruct sb; cbn [cond_Zopp];
            first [ apply Z.compare_eq_iff; lia
                  | apply Z.compare_lt_iff; lia
                  | apply Z.compare_gt_iff; lia ]).
  rewrite SFcompare_finite by assumption. f_equal.
  pose proof (bounded_inv ma ea Va) as (Ha & _). pose proof (bounded_inv mb eb Vb) as (Hb & _).
  rewrite (SF2Z_aligned sa ma ea (Z.min ea eb)), (SF2Z_aligned sb mb eb (Z.min ea eb)) by lia.
  symmetry. apply compare_scale. apply Z.pow_pos_nonneg; lia.
Qed.

(** The difference of two valid values, by the order of the two. *)
Lemma SFsub_cases (a b : spec_float) :
  valid_binary a = true -> valid_binary b = true ->
  SFis_nan a = false -> SFis_nan b = false ->
  let r := SF64sub a b in
  match SF2Z a ?= SF2Z b with
  | Lt => signed true r /\ nonzero r
  | Gt => signed false r /\ nonzero r
  | Eq => match a, b with
          | S754_infinity _, _ => r = S754_nan
          | S754_zero true, S754_zero false => r = S754_zero true
          | _, _ => r = S754_zero false
          end
  end.
Proof.
  intros Va Vb Na Nb r.
  pose proof (SFcompare_SF2Z a b Va Vb Na Nb) as Hc.
  assert (Hinf : 0 < 2 ^ (emax - emin)) by (apply Z.pow_pos_nonneg; unfold emax, SpecFloat.emin, prec; lia).
  destruct a as [sa | sa | | sa ma ea], b as [sb | sb | | sb mb eb];
    try discriminate; cbn [valid_binary] in Va, Vb.
  all: try pose proof (SF2Z_finite_bounds sa ma ea Va) as Ba.
  all: try pose proof (SF2Z_finite_bounds sb mb eb Vb) as Bb.
  all: try (apply (f_equal (fun o => match o with Some c => c | None => Eq end)) in Hc;
            destruct sa; try destruct sb; cbn [SFcompare] in Hc; rewrite <- Hc;
            subst r; cbn; repeat split; reflexivity).
  (* two finite values *)
  clear Hc.
  pose proof (bounded_inv ma ea Va) as (Ha & _). pose proof (bounded_inv mb eb Vb) as (Hb & _).
  pose proof (binary_normalize_cases
    (aligned sa ma ea (Z.min ea eb) - aligned sb mb eb (Z.min ea eb)) (Z.min ea eb)) as Hn.
  cbv zeta in Hn. rewrite <- Z.compare_sub in Hn.
  rewrite (SF2Z_aligned sa ma ea (Z.min ea eb)), (SF2Z_aligned sb mb eb (Z.min ea eb)) by lia.
  rewrite compare_scale by (apply Z.pow_pos_nonneg; lia).
  apply Hn. lia.
Qed.

(** Division: the sign of the quotient is the product of the signs. *)
Lemma binary_round_aux_sign (s : bool) (m e : Z) (l : location) :
  let r := binary_round_aux prec emax s m e l in
  r = S754_nan \/ signed s r.
Proof.
  unfold binary_round_aux.
  destruct (shr_fexp prec emax m e l) as [r1 e1].
  destruct (shr_fexp prec emax _ e1 loc_Exact) as [r2 e2].
  destruct (shr_m r2); [right | right | left]; try reflexivity.
  destruct (e2 <=? emax - prec); reflexivity.
Qed.

Lemma SFdiv_positive (d r : spec_float) :
  signed false d -> nonzero d -> signed false r -> nonzero r ->
  SF64div d r = S754_nan \/ signed false (SF64div d r).
Proof.
  intros Sd Nd Sr Nr.
  destruct d as [sd | sd | | sd md ed], r as [sr | sr | | sr mr er];
    cbn in Sd, Nd, Sr, Nr; try contradiction; subst; cbn [SF64div SFdiv xorb].
  - left; reflexivity.
  - right; reflexivity.
  - right; reflexivity.
  - destruct (SFdiv_core_binary prec emax (Zpos md) ed (Zpos mr) er) as [[mz ez] lz].
    apply binary_round_aux_sign.
Qed.

End SpecFloatFacts.

(** ** Facts on Numbers *)

Section NumberFacts.

Lemma SFcompare_refl (a : spec_float) :
  SFcompare a a = if SFis_nan a then None else Some Eq.
Proof.
  destruct a as [s | s | | s m e]; cbn; try reflexivity.
  - destruct s; reflexivity.
  - rewrite Z.compare_refl, Pos.compare_cont_refl. destruct s; reflexivity.
Qed.

Lemma is_nan_rep (x : float) : is_nan x = SFis_nan (Prim2SF x).
Proof.
  unfold is_nan. rewrite eqb_spec. unfold SFeqb. rewrite SFcompare_refl.
  destruct (SFis_nan (Prim2SF x)); reflexivity.
Qed.

Lemma is_zero_rep (x : float) :
  is_zero x = match Prim2SF x with S754_zero _ => true | _ => false end.
Proof.
  unfold is_zero. rewrite eqb_spec. change (Prim2SF zero) with (S754_zero false).
  destruct (Prim2SF x) as [s | s | | s m e]; try reflexivity; destruct s; reflexivity.
Qed.

Lemma is_infinity_rep (x : float) :
  is_infinity x = match Prim2SF x with S754_infinity _ => true | _ => false end.
Proof.
  unfold is_infinity. rewrite eqb_spec, abs_spec.
  change (Prim2SF infinity) with (S754_infinity false).
  destruct (Prim2SF x) as [s | s | | s m e]; reflexivity.
Qed.

Lemma get_sign_rep (x : float) :
  get_sign x = match Prim2SF x with
               | S754_zero s | S754_infinity s | S754_finite s _ _ => s
               | S754_nan => false
               end.
Proof.
  unfold get_sign. rewrite is_zero_rep.
  destruct (Prim2SF x) as [s | s | | s m e] eqn:Hx.
  - rewrite ltb_spec, div_spec, Hx. destruct s; reflexivity.
  - rewrite ltb_spec, Hx. destruct s; reflexivity.
  - rewrite ltb_spec, Hx. reflexivity.
  - rewrite ltb_spec, Hx. destruct s; reflexivity.
Qed.

Lemma is_pos_zero_rep (x : float) :
  Number.is_pos_zero x = match Prim2SF x with S754_zero false => true | _ => false end.
Proof.
  unfold Number.is_pos_zero. rewrite is_zero_rep, get_sign_rep.
  destruct (Prim2SF x) as [[ | ] | | | ]; reflexivity.
Qed.

Lemma is_neg_zero_rep (x : float) :
  Number.is_neg_zero x = match Prim2SF x with S754_zero true => true | _ => false end.
Proof.
  unfold Number.is_neg_zero. rewrite is_zero_rep, get_sign_rep.
  destruct (Prim2SF x) as [[ | ] | | | ]; reflexivity.
Qed.

Lemma is_finite_rep (x : float) :
  is_finite x = match Prim2SF x with
                | S754_zero _ | S754_finite _ _ _ => true
                | _ => false
                end.
Proof.
  unfold is_finite. rewrite is_nan_rep, is_infinity_rep.
  destruct (Prim2SF x); reflexivity.
Qed.

(** A Number is determined by its spec float. *)
Lemma rep_zero (x : float) : Prim2SF x = S754_zero false -> x = 0.
Proof. intros H. apply Prim2SF_inj. rewrite H. reflexivity. Qed.

Lemma rep_nan (x : float) : Prim2SF x = S754_nan -> x = nan.
Proof. intros H. apply Prim2SF_inj. rewrite H. reflexivity. Qed.

Lemma compare_F2Z (x y : float) :
  is_nan x = false -> is_nan y = false ->
  SFcompare (Prim2SF x) (Prim2SF y) = Some (F2Z x ?= F2Z y)%Z.
Proof.
  rewrite !is_nan_rep. intros Hx Hy.
  apply SFcompare_SF2Z; auto using Prim2SF_valid.
Qed.

Lemma leb_F2Z (x y : float) :
  is_nan x = false -> is_nan y = false -> (x <=? y) = (F2Z x <=? F2Z y)%Z.
Proof.
  intros Hx Hy. rewrite leb_spec. unfold SFleb, Z.leb.
  rewrite compare_F2Z by assumption. destruct (F2Z x ?= F2Z y)%Z; reflexivity.
Qed.

Lemma ltb_F2Z (x y : float) :
  is_nan x = false -> is_nan y = false -> (x <? y) = (F2Z x <? F2Z y)%Z.
Proof.
  intros Hx Hy. rewrite ltb_spec. unfold SFltb, Z.ltb.
  rewrite compare_F2Z by assumption. destruct (F2Z x ?= F2Z y)%Z; reflexivity.
Qed.

Lemma leb_not_nan (x y : float) : (x <=? y) = true -> is_nan x = false /\ is_nan y = false.
Proof.
  rewrite leb_spec, !is_nan_rep. unfold SFleb.
  destruct (Prim2SF x), (Prim2SF y); cbn; intros H; try discriminate; auto.
Qed.

Lemma ltb_not_nan (x y : float) : (x <? y) = true -> is_nan x = false /\ is_nan y = false.
Proof.
  rewrite ltb_spec, !is_nan_rep. unfold SFltb.
  destruct (Prim2SF x), (Prim2SF y); cbn; intros H; try discriminate; auto.
Qed.

Lemma is_finite_not_nan (x : float) : is_finite x = true -> is_nan x = false.
Proof. rewrite is_finite_rep, is_nan_rep. destruct (Prim2SF x); cbn; congruence. Qed.

(** The sign of a difference. *)
Lemma sub_cases (x y : float) :
  is_nan x = false -> is_nan y = false ->
  let r := Prim2SF (x - y) in
  match (F2Z x ?= F2Z y)%Z with
  | Lt => signed true r /\ nonzero r
  | Gt => signed false r /\ nonzero r
  | Eq => match Prim2SF x, Prim2SF y with
          | S754_infinity _, _ => r = S754_nan
          | S754_zero true, S754_zero false => r = S754_zero true
          | _, _ => r = S754_zero false
          end
  end.
Proof.
  rewrite !is_nan_rep. intros Hx Hy. rewrite sub_spec.
  apply SFsub_cases; auto using Prim2SF_valid.
Qed.

Lemma signed_true_leb_zero (r : float) :
  signed true (Prim2SF r) -> (r <=? 0) = true.
Proof.
  rewrite leb_spec. change (Prim2SF 0) with (S754_zero false).
  destruct (Prim2SF r) as [s | s | | s m e]; cbn; intros H; try contradiction; subst; reflexivity.
Qed.

Lemma signed_false_leb_zero (r : float) :
  signed false (Prim2SF r) -> nonzero (Prim2SF r) -> (r <=? 0) = false.
Proof.
  rewrite leb_spec. change (Prim2SF 0) with (S754_zero false).
  destruct (Prim2SF r) as [s | s | | s m e]; cbn; intros H N; try contradiction; subst; reflexivity.
Qed.

(** [x <= y] makes [x - y <= 0], unless the difference is NaN. *)
Lemma sub_leb_zero (x y : float) :
  (x <=? y) = true -> is_nan (x - y) = false -> (x - y <=? 0) = true.
Proof.
  intros Hle Hn. destruct (leb_not_nan x y Hle) as [Nx Ny].
  rewrite leb_F2Z in Hle by assumption. apply Z.leb_le in Hle.
  pose proof (sub_cases x y Nx Ny) as Hs. cbv zeta in Hs.
  rewrite is_nan_rep in Hn.
  destruct (Z.compare_spec (F2Z x) (F2Z y)) as [He | Hl | Hg].
  - rewrite leb_spec. change (Prim2SF 0) with (S754_zero false).
    destruct (Prim2SF x) as [[ | ] | | | ], (Prim2SF y) as [[ | ] | | | ];
      rewrite Hs in *; try discriminate; reflexivity.
  - apply signed_true_leb_zero, Hs.
  - lia.
Qed.

(** [y < x] makes [x - y > 0]. *)
Lemma sub_gt_zero (x y : float) :
  (y <? x) = true -> (x - y <=? 0) = false.
Proof.
  intros Hlt. destruct (ltb_not_nan y x Hlt) as [Ny Nx].
  rewrite ltb_F2Z in Hlt by assumption. apply Z.ltb_lt in Hlt.
  pose proof (sub_cases x y Nx Ny) as Hs. cbv zeta in Hs.
  destruct (Z.compare_spec (F2Z x) (F2Z y)) as [He | Hl | Hg]; try lia.
  apply signed_false_leb_zero; apply Hs.
Qed.

(** A positive Number divided by a positive Number is not negative. *)
Lemma div_not_negative (d r : float) :
  (d <=? 0) = false -> (0 <? r) = true -> (d / r <? 0) = false.
Proof.
  intros Hd Hr. rewrite ltb_spec, div_spec.
  rewrite leb_spec in Hd. rewrite ltb_spec in Hr.
  change (Prim2SF 0) with (S754_zero false) in *.
  destruct (Prim2SF d) as [sd | sd | | sd md ed] eqn:Ed.
  - discriminate.
  - destruct sd; [discriminate | ].
    destruct (Prim2SF r) as [sr | sr | | sr mr er]; try discriminate;
      destruct sr; try discriminate; reflexivity.
  - destruct (Prim2SF r); reflexivity.
  - destruct sd; [discriminate | ].
    destruct (Prim2SF r) as [sr | sr | | sr mr er] eqn:Er; try discriminate;
      destruct sr; try discriminate; try reflexivity.
    assert (H : SF64div (S754_finite false md ed) (S754_finite false mr er) = S754_nan
                \/ signed false (SF64div (S754_finite false md ed) (S754_finite false mr er)))
      by (apply SFdiv_positive; cbn; auto).
    destruct (SF64div _ _) as [s | s | | s m e]; destruct H as [H | H];
      cbn in H; try discriminate; try contradiction; subst; reflexivity.
Qed.

End NumberFacts.

(** ** [Math.max] and [Math.min] over Numbers that are not NaN *)

Section MaxMinFacts.

Lemma F2Z_zero_inv (x : float) :
  is_nan x = false -> F2Z x = 0%Z -> exists s, Prim2SF x = S754_zero s.
Proof.
  rewrite is_nan_rep. unfold F2Z. pose proof (Prim2SF_valid x) as V.
  destruct (Prim2SF x) as [s | s | | s m e]; cbn [SFis_nan SF2Z]; intros N H.
  - eauto.
  - assert (0 < 2 ^ (emax - emin))%Z by (apply Z.pow_pos_nonneg; unfold emax, SpecFloat.emin, prec; lia).
    destruct s; cbn [cond_Zopp] in H; lia.
  - discriminate.
  - pose proof (SF2Z_finite_bounds s m e V). destruct s; cbn [cond_Zopp] in H; lia.
Qed.

Lemma F2Z_of_zero (x : float) (s : bool) : Prim2SF x = S754_zero s -> F2Z x = 0%Z.
Proof. unfold F2Z. intros ->. reflexivity. Qed.

Lemma is_pos_zero_true (x : float) :
  Number.is_pos_zero x = true <-> Prim2SF x = S754_zero false.
Proof.
  rewrite is_pos_zero_rep. destruct (Prim2SF x) as [[ | ] | | | ]; split; congruence.
Qed.

Lemma is_neg_zero_true (x : float) :
  Number.is_neg_zero x = true <-> Prim2SF x = S754_zero true.
Proof.
  rewrite is_neg_zero_rep. destruct (Prim2SF x) as [[ | ] | | | ]; split; congruence.
Qed.

Lemma no_nan_cons (n : float) (rest : list float) :
  no_nan (n :: rest) -> is_nan n = false /\ no_nan rest.
Proof.
  intros H. split; [apply H; left; reflexivity | intros x Hx; apply H; right; exact Hx].
Qed.

(** Steps shared by the two loops. The result of the rest of the loop is
    its running value or a later argument ([I]); the running value is the
    argument just read ([from_new_head]) or the one before ([from_old_head]). *)
Ltac from_new_head I :=
  destruct I as [-> | I]; [right; left; reflexivity | right; right; exact I].
Ltac from_old_head I :=
  destruct I as [-> | I]; [left; reflexivity | right; right; exact I].

(** The bound for the argument just read and, by [I4], for the later ones. *)
Ltac bound_each I3 I4 :=
  let x := fresh "x" in let Hx := fresh "Hx" in
  intros x [<- | Hx]; [first [exact I3 | lia] | apply I4; exact Hx].

(** The loop of [Math.max] from a running value [h]: the result is [h] or an
    argument, it bounds [h] and every argument, and it is [-0] only if
    neither [h] nor an argument is [+0]. *)
Lemma max_from_spec (l : list float) :
  forall h, is_nan h = false -> no_nan l ->
  let r := Math.max_from h l in
  is_nan r = false /\ (r = h \/ In r l) /\
  (F2Z h <= F2Z r)%Z /\ (forall x, In x l -> (F2Z x <= F2Z r)%Z) /\
  (Prim2SF r = S754_zero true ->
   Prim2SF h <> S754_zero false /\ forall x, In x l -> Prim2SF x <> S754_zero false).
Proof.
  induction l as [ | n rest IH]; intros h Nh Nl; cbn [Math.max_from].
  - split; [exact Nh | ]. split; [left; reflexivity | ]. split; [lia | ].
    split; [intros x [] | ]. intros E. split; [ | intros x []].
    rewrite E. discriminate.
  - destruct (no_nan_cons n rest Nl) as [Nn Nrest]. rewrite Nn.
    destruct (Number.is_pos_zero n && Number.is_neg_zero h) eqn:Hz.
    + apply andb_true_iff in Hz. destruct Hz as [Hn Hh].
      apply is_pos_zero_true in Hn. apply is_neg_zero_true in Hh.
      destruct (IH n Nn Nrest) as (I1 & I2 & I3 & I4 & I5).
      pose proof (F2Z_of_zero n _ Hn). pose proof (F2Z_of_zero h _ Hh).
      split; [exact I1 | ]. split; [ | split; [lia | split]].
      * from_new_head I2.
      * bound_each I3 I4.
      * intros Hr. destruct (I5 Hr) as [I6 _]. contradiction.
    + rewrite ltb_F2Z by assumption.
      destruct (Z.ltb_spec (F2Z h) (F2Z n)) as [Hlt | Hge].
      * destruct (IH n Nn Nrest) as (I1 & I2 & I3 & I4 & I5).
        split; [exact I1 | ]. split; [ | split; [lia | split]].
        -- from_new_head I2.
        -- bound_each I3 I4.
        -- intros Hr. destruct (I5 Hr) as [I6 I7]. pose proof (F2Z_of_zero _ _ Hr). split.
           ++ intros Hh. pose proof (F2Z_of_zero _ _ Hh). lia.
           ++ intros x [<- | Hx]; [exact I6 | apply I7; exact Hx].
      * destruct (IH h Nh Nrest) as (I1 & I2 & I3 & I4 & I5).
        split; [exact I1 | ]. split; [ | split; [exact I3 | split]].
        -- from_old_head I2.
        -- bound_each I3 I4.
        -- intros Hr. destruct (I5 Hr) as [I6 I7]. pose proof (F2Z_of_zero _ _ Hr).
           split; [exact I6 | ].
           intros x [<- | Hx]; [ | apply I7; exact Hx].
           intros Hn. pose proof (F2Z_of_zero _ _ Hn).
           destruct (F2Z_zero_inv h Nh) as [[ | ] Hs]; [lia | | contradiction].
           apply is_neg_zero_true in Hs. apply is_pos_zero_true in Hn.
           rewrite Hs, Hn in Hz. discriminate.
Qed.

(** The loop of [Math.min], in the same way. *)
Lemma min_from_spec (l : list float) :
  forall h, is_nan h = false -> no_nan l ->
  let r := Math.min_from h l in
  is_nan r = false /\ (r = h \/ In r l) /\
  (F2Z r <= F2Z h)%Z /\ (forall x, In x l -> (F2Z r <= F2Z x)%Z).
Proof.
  induction l as [ | n rest IH]; intros h Nh Nl; cbn [Math.min_from].
  - repeat split; auto using Z.le_refl; try (intros x []).
  - destruct (no_nan_cons n rest Nl) as [Nn Nrest]. rewrite Nn.
    destruct (Number.is_neg_zero n && Number.is_pos_zero h) eqn:Hz.
    + apply andb_true_iff in Hz. destruct Hz as [Hn Hh].
      apply is_neg_zero_true in Hn. apply is_pos_zero_true in Hh.
      destruct (IH n Nn Nrest) as (I1 & I2 & I3 & I4).
      pose proof (F2Z_of_zero n _ Hn). pose proof (F2Z_of_zero h _ Hh).
      split; [exact I1 | ]. split; [ | split; [lia | ]].
      * from_new_head I2.
      * bound_each I3 I4.
    + rewrite ltb_F2Z by assumption.
      destruct (Z.ltb_spec (F2Z n) (F2Z h)) as [Hlt | Hge].
      * destruct (IH n Nn Nrest) as (I1 & I2 & I3 & I4).
        split; [exact I1 | ]. split; [ | split; [lia | ]].
        -- from_new_head I2.
        -- bound_each I3 I4.
      * destruct (IH h Nh Nrest) as (I1 & I2 & I3 & I4).
        split; [exact I1 | ]. split; [ | split; [exact I3 | ]].
        -- from_old_head I2.
        -- bound_each I3 I4.
Qed.

Lemma all_finite_no_nan (l : list float) : all_finite l -> no_nan l.
Proof. intros H x Hx. apply is_finite_not_nan, H, Hx. Qed.

(** Over a non-empty list of finite Numbers, [Math.max] and [Math.min] are
    elements of the list. *)
Lemma max_finite (n : float) (rest : list float) :
  all_finite (n :: rest) -> Math.max (n :: rest) = Math.max_from n rest.
Proof.
  intros Hf. assert (Fn : is_finite n = true) by (apply Hf; left; reflexivity).
  unfold Math.max. cbn [Math.max_from].
  rewrite (is_finite_not_nan n Fn), is_pos_zero_rep, is_neg_zero_rep, ltb_spec.
  change (Prim2SF neg_infinity) with (S754_infinity true).
  rewrite is_finite_rep in Fn.
  destruct (Prim2SF n) as [[ | ] | | | ]; try discriminate; reflexivity.
Qed.

Lemma min_finite (n : float) (rest : list float) :
  all_finite (n :: rest) -> Math.min (n :: rest) = Math.min_from n rest.
Proof.
  intros Hf. assert (Fn : is_finite n = true) by (apply Hf; left; reflexivity).
  unfold Math.min. cbn [Math.min_from].
  rewrite (is_finite_not_nan n Fn), is_pos_zero_rep, is_neg_zero_rep, ltb_spec.
  change (Prim2SF infinity) with (S754_infinity false).
  rewrite is_finite_rep in Fn.
  destruct (Prim2SF n) as [[ | ] | | | ]; try discriminate; reflexivity.
Qed.

(** [Math.max(0, d)] is [d] when [d] is [+0], positive or [+Infinity]. *)
Lemma max_zero_signed (d : float) :
  signed false (Prim2SF d) -> Math.max [0; d] = d.
Proof.
  intros Hd. unfold Math.max. cbn [Math.max_from].
  change (is_nan 0) with false.
  change (Number.is_pos_zero 0 && Number.is_neg_zero neg_infinity) with false.
  change (neg_infinity <? 0) with true. cbv iota.
  rewrite is_nan_rep, is_pos_zero_rep, ltb_spec.
  change (Number.is_neg_zero 0) with false. rewrite andb_false_r.
  change (Prim2SF 0) with (S754_zero false).
  destruct (Prim2SF d) as [s | s | | s m e] eqn:Ed; cbn in Hd; try contradiction; subst s;
    cbn; try reflexivity.
  symmetry. apply rep_zero. exact Ed.
Qed.

(** The extremes of a non-empty list of finite Numbers. *)
Lemma extremes_finite (l : list float) :
  l <> [] -> all_finite l ->
  let hi := Math.max l in
  let lo := Math.min l in
  (lo <=? hi) = true /\ signed false (Prim2SF (hi - lo)).
Proof.
  intros Hne Hf. destruct l as [ | n rest]; [contradiction | ].
  pose proof (all_finite_no_nan _ Hf) as Nl.
  destruct (no_nan_cons n rest Nl) as [Nn Nrest].
  cbv zeta. rewrite max_finite, min_finite by exact Hf.
  destruct (max_from_spec rest n Nn Nrest) as (A1 & A2 & A3 & A4 & A5).
  destruct (min_from_spec rest n Nn Nrest) as (B1 & B2 & B3 & B4).
  set (hi := Math.max_from n rest) in *. set (lo := Math.min_from n rest) in *.
  assert (Hin_hi : In hi (n :: rest)) by (destruct A2 as [-> | ?]; [left | right]; auto).
  assert (Hin_lo : In lo (n :: rest)) by (destruct B2 as [-> | ?]; [left | right]; auto).
  assert (Hle : (F2Z lo <= F2Z hi)%Z) by lia.
  split.
  - rewrite leb_F2Z by assumption. apply Z.leb_le. exact Hle.
  - pose proof (sub_cases hi lo A1 B1) as Hs. cbv zeta in Hs.
    pose proof (Hf hi Hin_hi) as Fhi. rewrite is_finite_rep in Fhi.
    destruct (Z.compare_spec (F2Z hi) (F2Z lo)) as [He | Hl | Hg].
    + destruct (Prim2SF hi) as [[ | ] | | | ] eqn:Ehi; try discriminate.
      * destruct (Prim2SF lo) as [[ | ] | | | ] eqn:Elo; try (rewrite Hs; reflexivity).
        destruct (A5 eq_refl) as [A6 A7].
        exfalso. destruct B2 as [E | Hin].
        -- apply A6. rewrite <- E. exact Elo.
        -- apply (A7 lo Hin). exact Elo.
      * rewrite Hs. reflexivity.
      * rewrite Hs. reflexivity.
    + lia.
    + apply Hs.
Qed.

End MaxMinFacts.

(** ** The loop *)

Section LoopFacts.

Variable M : Math.impl.
Variable p : Params.
Variable o : Opts.

Lemma loopBody_state (step : Z) (fr : Frame.t) :
  (Frame.V_lv (loopBody M p o step fr), Frame.P_art (loopBody M p o step fr)) =
  advance M p o step (Frame.V_lv fr, Frame.P_art fr).
Proof.
  unfold loopBody, advance, mitralFlow, aorticFlow, ventricularPressure, phaseAt.
  cbv zeta. destruct (_ <=? step)%Z; reflexivity.
Qed.

Lemma loopBody_trace (k : nat) (fr : Frame.t) :
  (Frame.V_lv fr, Frame.P_art fr) = stateAt M p o k ->
  Frame.traceP (loopBody M p o (Z.of_nat k) fr) =
  Frame.traceP fr ++ (if kept o k then [sampleAt M p o k] else []).
Proof.
  intros Hs. unfold sampleAt. cbn [stateAt]. rewrite <- Hs.
  unfold loopBody, advance, mitralFlow, aorticFlow, ventricularPressure, phaseAt, kept.
  cbv zeta. destruct (_ <=? Z.of_nat k)%Z; cbn; [reflexivity | ].
  rewrite app_nil_r. reflexivity.
Qed.

Lemma loopBody_points (k : nat) (fr : Frame.t) :
  (Frame.V_lv fr, Frame.P_art fr) = stateAt M p o k ->
  Frame.pvPoints (loopBody M p o (Z.of_nat k) fr) =
  Frame.pvPoints fr ++ (if kept o k then [pointOf (sampleAt M p o k)] else []).
Proof.
  intros Hs. unfold sampleAt. cbn [stateAt]. rewrite <- Hs.
  unfold loopBody, advance, mitralFlow, aorticFlow, ventricularPressure, phaseAt, kept.
  cbv zeta. destruct (_ <=? Z.of_nat k)%Z; cbn; [reflexivity | ].
  rewrite app_nil_r. reflexivity.
Qed.

(** The invariant of the loop: after [n] more iterations from step [k], the
    state is the one of step [k + n] and the kept samples of the steps
    [k .. k + n - 1] have been appended, in order. *)
Lemma forLoop_spec (n : nat) :
  forall (k : nat) (fr : Frame.t),
  (Frame.V_lv fr, Frame.P_art fr) = stateAt M p o k ->
  let fr' := forLoop M p o n (Z.of_nat k) fr in
  (Frame.V_lv fr', Frame.P_art fr') = stateAt M p o (k + n) /\
  Frame.traceP fr' = Frame.traceP fr ++ map (sampleAt M p o) (filter (kept o) (seq k n)) /\
  Frame.pvPoints fr' =
    Frame.pvPoints fr ++ map pointOf (map (sampleAt M p o) (filter (kept o) (seq k n))).
Proof.
  induction n as [ | n IH]; intros k fr Hs; cbn [forLoop seq filter map].
  - rewrite Nat.add_0_r, !app_nil_r. auto.
  - assert (Hs' : (Frame.V_lv (loopBody M p o (Z.of_nat k) fr),
                   Frame.P_art (loopBody M p o (Z.of_nat k) fr)) = stateAt M p o (S k)).
    { rewrite loopBody_state, Hs. reflexivity. }
    replace (Z.of_nat k + 1)%Z with (Z.of_nat (S k)) by lia.
    destruct (IH (S k) _ Hs') as (H1 & H2 & H3).
    rewrite H1, H2, H3, loopBody_trace, loopBody_points by exact Hs.
    replace (k + S n)%nat with (S k + n)%nat by lia.
    split; [reflexivity | ].
    destruct (kept o k); cbn [map app]; rewrite <- !app_assoc; cbn [app]; auto.
Qed.

Lemma filter_from (z : Z) (n : nat) :
  filter (fun k => (z <=? Z.of_nat k)%Z) (seq 0 n) = seq (Z.to_nat z) (n - Z.to_nat z).
Proof.
  induction n as [ | n IH].
  - reflexivity.
  - rewrite seq_S, filter_app, IH. cbn [filter Nat.add].
    destruct (Z.leb_spec z (Z.of_nat n)) as [Hle | Hgt].
    + replace (S n - Z.to_nat z)%nat with (S (n - Z.to_nat z)) by lia.
      rewrite seq_S. do 2 f_equal. lia.
    + replace (S n - Z.to_nat z)%nat with 0%nat by lia.
      replace (n - Z.to_nat z)%nat with 0%nat by lia. reflexivity.
Qed.

(** What [runSimulation] returns, for all parameters and options: the
    samples of the last beat and their points, with the metrics of these
    samples. No path throws. *)
Lemma runSimulation_returns :
  exists m,
    summaryMetrics p (map (sampleAt M p o) (lastBeat o)) = Normal m /\
    runSimulation M p o =
      Normal (Sim.mk (map (sampleAt M p o) (lastBeat o))
                     (map pointOf (map (sampleAt M p o) (lastBeat o))) m).
Proof.
  unfold runSimulation.
  destruct (forLoop_spec (Z.to_nat (totalSteps o)) 0 (initialFrame p) eq_refl)
    as (_ & H2 & H3).
  cbn [Z.of_nat] in H2, H3. rewrite H2, H3. cbn [initialFrame Frame.traceP Frame.pvPoints app].
  unfold kept. rewrite filter_from. fold (lastBeat o).
  unfold summaryMetrics. eexists. split; reflexivity.
Qed.

Lemma lastBeat_length :
  length (lastBeat o) =
  if ((0 <? beats o) && (0 <? stepsPerBeat o))%Z then Z.to_nat (stepsPerBeat o) else 0%nat.
Proof.
  unfold lastBeat, totalSteps. rewrite length_seq.
  destruct (Z.ltb_spec 0 (beats o)), (Z.ltb_spec 0 (stepsPerBeat o)); cbn [andb]; nia.
Qed.

End LoopFacts.

(** ** Further facts *)

(** The product of two Numbers does not depend on the order of the factors. *)
Lemma Number_mul_comm (x y : float) : x * y = y * x.
Proof.
  apply Prim2SF_inj. rewrite !mul_spec. unfold SF64mul, SFmul.
  destruct (Prim2SF x) as [sx | sx | | sx mx ex], (Prim2SF y) as [sy | sy | | sy my ey];
    try reflexivity; try (rewrite xorb_comm; reflexivity).
  rewrite xorb_comm, Pos.mul_comm, Z.add_comm. reflexivity.
Qed.

Lemma signed_false_zero_leb (d : float) : signed false (Prim2SF d) -> (0 <=? d) = true.
Proof.
  rewrite leb_spec. change (Prim2SF 0) with (S754_zero false).
  destruct (Prim2SF d) as [s | s | | s m e]; cbn; intros H; try contradiction; subst; reflexivity.
Qed.

Lemma sub_finite_not_nan (x y : float) :
  is_finite x = true -> is_finite y = true -> is_nan (x - y) = false.
Proof.
  intros Fx Fy.
  pose proof (sub_cases x y (is_finite_not_nan x Fx) (is_finite_not_nan y Fy)) as Hs.
  cbv zeta in Hs. rewrite is_nan_rep. rewrite is_finite_rep in Fx.
  destruct (F2Z x ?= F2Z y)%Z.
  - destruct (Prim2SF x) as [[ | ] | | | ]; try discriminate;
      destruct (Prim2SF y) as [[ | ] | | | ]; rewrite Hs; reflexivity.
  - destruct Hs as [Hs _]. destruct (Prim2SF (x - y)); cbn in Hs; try contradiction; reflexivity.
  - destruct Hs as [Hs _]. destruct (Prim2SF (x - y)); cbn in Hs; try contradiction; reflexivity.
Qed.

Lemma nth_error_map_seq {A : Type} (f : nat -> A) (a len i : nat) :
  (i < len)%nat -> nth_error (map f (seq a len)) i = Some (f (a + i)%nat).
Proof.
  intros Hi. rewrite nth_error_map.
  rewrite (nth_error_nth' (seq a len) 0%nat) by (rewrite length_seq; exact Hi).
  rewrite seq_nth by exact Hi. reflexivity.
Qed.

(** The reference implementation has the special values of ECMA-262. *)
Lemma RefMath_conforming : Math.conforming RefMath.impl.
Proof.
  split.
  - reflexivity.
  - intros y Hy. destruct (ltb_not_nan 0 y Hy) as [_ Ny].
    cbn [RefMath.impl Math.pow]. unfold RefMath.pow. rewrite Ny.
    assert (Zy : is_zero y = false).
    { rewrite is_zero_rep. rewrite ltb_spec in Hy.
      change (Prim2SF 0) with (S754_zero false) in Hy.
      destruct (Prim2SF y); try reflexivity; discriminate. }
    rewrite Zy, Hy. reflexivity.
  - intros z Hz. cbn [RefMath.impl Math.exp]. unfold RefMath.exp.
    assert (Nz : is_nan z = false).
    { rewrite is_nan_rep. rewrite is_zero_rep in Hz.
      destruct (Prim2SF z); try reflexivity; discriminate. }
    rewrite Nz, Hz. reflexivity.
Qed.

(** ** The ideal waveform *)

Module IdealFacts.
Import Reals Lra.
Local Open Scope R_scope.

Ltac read_waveform :=
  cbv beta iota zeta delta
    [Ideal.exactElastance Waveform.normalizedElastance Ideal.reals
     Waveform.num Waveform.literal Waveform.PI Waveform.ltb Waveform.neg
     Waveform.sub Waveform.mul Waveform.div Waveform.sin Waveform.pow
     Waveform.exp].

(** Below [ts] the waveform is its systolic branch. *)
Lemma systole (t : R) :
  t < 33 / 100 ->
  Ideal.exactElastance t = Ideal.pow (sin (PI * (t / (33 / 100)))) (15 / 10).
Proof.
  intros Ht. read_waveform.
  destruct (Rlt_dec t (33 / 100)) as [_ | Hn]; [reflexivity | contradiction].
Qed.

(** From [ts] on it is its diastolic branch. *)
Lemma diastole (t : R) :
  33 / 100 <= t ->
  Ideal.exactElastance t =
  5 / 100 * exp (- (3 / 1) * ((t - 33 / 100) / (1 / 1 - 33 / 100))).
Proof.
  intros Ht. read_waveform.
  destruct (Rlt_dec t (33 / 100)) as [Hlt | _]; [lra | reflexivity].
Qed.

Lemma value_at_zero : Ideal.exactElastance Ideal.onset = 0.
Proof.
  unfold Ideal.onset.
  rewrite systole by lra.
  replace (PI * (0 / (33 / 100))) with 0 by (field; lra).
  rewrite sin_0. unfold Ideal.pow.
  destruct (Rlt_dec 0 0) as [Hlt | _]; [lra | reflexivity].
Qed.

Lemma value_at_ts : Ideal.exactElastance Ideal.ts = Ideal.tone.
Proof.
  unfold Ideal.ts, Ideal.tone. rewrite diastole by lra.
  replace (- (3 / 1) * ((33 / 100 - 33 / 100) / (1 / 1 - 33 / 100))) with 0 by (field; lra).
  rewrite exp_0. lra.
Qed.

Lemma systolic_branch : Ideal.systolic Ideal.exactElastance.
Proof.
  unfold Ideal.systolic, Ideal.ts. intros t [Hlo Hhi].
  pose proof PI_RGT_0 as Hpi.
  rewrite systole by exact Hhi. unfold Ideal.pow.
  assert (Hs : 0 < sin (PI * (t / (33 / 100)))).
  { apply sin_gt_0.
    - apply Rmult_lt_0_compat; [exact Hpi | ]. apply Rdiv_lt_0_compat; lra.
    - rewrite <- (Rmult_1_r PI) at 2. apply Rmult_lt_compat_l; [exact Hpi | ].
      apply (Rmult_lt_reg_r (33 / 100)); [lra | ].
      replace (t / (33 / 100) * (33 / 100)) with t by (field; lra). lra. }
  destruct (Rlt_dec 0 (sin (PI * (t / (33 / 100))))) as [_ | Hn]; [ | contradiction].
  f_equal. lra.
Qed.

Lemma left_limit_at_ts : Ideal.vanishes_from_below Ideal.exactElastance Ideal.ts.
Proof.
  unfold Ideal.vanishes_from_below, Ideal.ts.
  intros eps Heps.
  pose proof PI_RGT_0 as Hpi.
  set (c := Rpower eps (2 / 3)).
  assert (Hc : 0 < c) by (unfold c, Rpower; apply exp_pos).
  assert (Hce : Rpower c (15 / 10) = eps).
  { unfold c. rewrite Rpower_mult. replace (2 / 3 * (15 / 10)) with 1 by lra.
    apply Rpower_1. exact Heps. }
  exists (Rmin (33 / 100) (33 / 100 * c / PI)). split.
  - apply Rmin_pos; [lra | ]. apply Rdiv_lt_0_compat; [ | exact Hpi]. nra.
  - intros t [Hlo Hhi].
    pose proof (Rmin_l (33 / 100) (33 / 100 * c / PI)) as Hm1.
    pose proof (Rmin_r (33 / 100) (33 / 100 * c / PI)) as Hm2.
    rewrite systole by exact Hhi.
    set (u := PI * (1 - t / (33 / 100))).
    assert (Hu : sin (PI * (t / (33 / 100))) = sin u).
    { unfold u. rewrite <- (sin_PI_x (PI * (1 - t / (33 / 100)))). f_equal. lra. }
    assert (Hx : 0 < 1 - t / (33 / 100) /\ 1 - t / (33 / 100) < 1 /\
                 PI * (1 - t / (33 / 100)) < c).
    { assert (Hd : t / (33 / 100) = t * (100 / 33)) by field. rewrite Hd.
      split; [lra | split; [lra | ]].
      assert (H3 : 33 / 100 - t < 33 / 100 * c / PI) by lra.
      apply (Rmult_lt_compat_r PI) in H3; [ | exact Hpi].
      replace (33 / 100 * c / PI * PI) with (33 / 100 * c) in H3 by (field; lra).
      nra. }
    destruct Hx as (Hx1 & Hx2 & Hx3).
    assert (Hu0 : 0 < u) by (unfold u; nra).
    assert (HuPI : u < PI) by (unfold u; nra).
    assert (Hs0 : 0 < sin u) by (apply sin_gt_0; assumption).
    assert (Hsu : sin u < u) by (apply sin_lt_x; exact Hu0).
    rewrite Hu. unfold Ideal.pow.
    destruct (Rlt_dec 0 (sin u)) as [_ | Hn]; [ | contradiction].
    rewrite Rabs_pos_eq by (unfold Rpower; left; apply exp_pos).
    rewrite <- Hce. apply Rlt_Rpower_l; [lra | ]. unfold u in *. lra.
Qed.

End IdealFacts.

(** * The claims *)

(** C1, as stated, fails: at the boundary [Emax = Emin] the run is not
    rejected; it integrates and returns the samples of the last beat. *)
Lemma zero_amplitude_run_returns :
  invalidParameters flat {| stepsPerBeat := 4; beats := 2 |} /\
  runSimulation RefMath.impl flat {| stepsPerBeat := 4; beats := 2 |}
    <> Throw InvalidParameter /\
  exists r, runSimulation RefMath.impl flat {| stepsPerBeat := 4; beats := 2 |} = Normal r /\
            length (Sim.traceP r) = 4%nat.
Proof.
  split; [ | split].
  - unfold invalidParameters. do 5 right. reflexivity.
  - vm_compute. discriminate.
  - eexists. split; [vm_compute; reflexivity | reflexivity].
Qed.

(** C1, amended: [runSimulation] validates nothing. For every input with
    [hr <= 0], [comp <= 0], [svr <= 0], [stepsPerBeat <= 0], [beats <= 0] or
    [Emax <= Emin] the run does not throw: the loop runs its
    [beats * stepsPerBeat] steps (none when that product is not positive)
    and the record is returned, its trace holding the samples of the last
    beat: [stepsPerBeat] samples when both counts are positive, none
    otherwise. *)
Theorem invalid_parameters_not_rejected (M : Math.impl) (p : Params) (o : Opts) :
  invalidParameters p o ->
  exists r, runSimulation M p o = Normal r /\
            Sim.traceP r = map (sampleAt M p o) (lastBeat o) /\
            length (Sim.traceP r) =
              if ((0 <? beats o) && (0 <? stepsPerBeat o))%Z
              then Z.to_nat (stepsPerBeat o) else 0%nat.
Proof.
  intros _. destruct (runSimulation_returns M p o) as (m & _ & Hr).
  eexists. split; [exact Hr | ]. cbn [Sim.traceP]. split; [reflexivity | ].
  rewrite length_map. apply lastBeat_length.
Qed.

Lemma invalid_parameters_not_rejected_witness :
  invalidParameters flat defaultOpts /\
  exists r, runSimulation RefMath.impl flat defaultOpts = Normal r /\
            Sim.traceP r = map (sampleAt RefMath.impl flat defaultOpts) (lastBeat defaultOpts) /\
            length (Sim.traceP r) = 400%nat.
Proof.
  assert (H : invalidParameters flat defaultOpts).
  { unfold invalidParameters. do 5 right. reflexivity. }
  split; [exact H | ].
  exact (invalid_parameters_not_rejected RefMath.impl flat defaultOpts H).
Defined.

(** C2, as stated, fails: with the smallest positive compliance the arterial
    pressure is [-Infinity] after the first step and NaN after the second;
    the run goes on and returns these samples. *)
Lemma non_finite_run_returns :
  is_finite (snd (stateAt RefMath.impl stiff {| stepsPerBeat := 3; beats := 1 |} 1)) = false /\
  runSimulation RefMath.impl stiff {| stepsPerBeat := 3; beats := 1 |}
    <> Throw NumericalInstability /\
  exists r, runSimulation RefMath.impl stiff {| stepsPerBeat := 3; beats := 1 |} = Normal r /\
            map Sample.P_art (Sim.traceP r) = [neg_infinity; nan; nan] /\
            map Sample.V_lv (Sim.traceP r) = [120; neg_infinity; nan].
Proof.
  split; [ | split].
  - vm_compute. reflexivity.
  - vm_compute. discriminate.
  - eexists. split; [vm_compute; reflexivity | split; reflexivity].
Qed.

(** C2, amended: the loop tests no state variable. When the volume or the
    pressure is not finite after some step [k], the run still executes all
    its steps and returns the record; if [k] belongs to the last beat, the
    trace holds the sample of step [k], non-finite values included, at
    position [k - (totalSteps - stepsPerBeat)]. *)
Theorem non_finite_state_not_detected (M : Math.impl) (p : Params) (o : Opts) (k : nat) :
  (Z.of_nat k < totalSteps o)%Z ->
  is_finite (fst (stateAt M p o (S k))) = false \/
  is_finite (snd (stateAt M p o (S k))) = false ->
  exists r, runSimulation M p o = Normal r /\
            Sim.traceP r = map (sampleAt M p o) (lastBeat o) /\
            (kept o k = true ->
             exists s, nth_error (Sim.traceP r) (k - Z.to_nat (totalSteps o - stepsPerBeat o)) = Some s /\
                       Sample.V_lv s = fst (stateAt M p o (S k)) /\
                       Sample.P_art s = snd (stateAt M p o (S k))).
Proof.
  intros Hk _. destruct (runSimulation_returns M p o) as (m & _ & Hr).
  eexists. split; [exact Hr | ]. cbn [Sim.traceP]. split; [reflexivity | ].
  intros Hkept. unfold kept in Hkept. apply Z.leb_le in Hkept.
  exists (sampleAt M p o k). split; [ | split; reflexivity].
  unfold lastBeat. rewrite nth_error_map_seq by lia. do 2 f_equal. lia.
Qed.

Lemma non_finite_state_not_detected_witness :
  exists r, runSimulation RefMath.impl stiff {| stepsPerBeat := 3; beats := 1 |} = Normal r /\
            Sim.traceP r = map (sampleAt RefMath.impl stiff {| stepsPerBeat := 3; beats := 1 |})
                               (lastBeat {| stepsPerBeat := 3; beats := 1 |}) /\
            (kept {| stepsPerBeat := 3; beats := 1 |} 0 = true ->
             exists s, nth_error (Sim.traceP r) 0 = Some s /\
                       Sample.V_lv s = fst (stateAt RefMath.impl stiff {| stepsPerBeat := 3; beats := 1 |} 1) /\
                       Sample.P_art s = snd (stateAt RefMath.impl stiff {| stepsPerBeat := 3; beats := 1 |} 1)).
Proof.
  apply (non_finite_state_not_detected RefMath.impl stiff {| stepsPerBeat := 3; beats := 1 |} 0).
  - reflexivity.
  - right. vm_compute. reflexivity.
Defined.

(** C3: one iteration of the loop is a simultaneous explicit-Euler update.
    With [Qin] and [Qout] the two valve flows computed from the state before
    the step, the pressure after the step is
    [P_art + dt * ((Qout - P_art / R_per) / comp)] and the volume after the
    step is [V_lv + dt * (Qin - Qout)], both right-hand sides read in the
    state before the step. *)
Theorem euler_step_simultaneous (M : Math.impl) (p : Params) (o : Opts)
    (step : Z) (fr : Frame.t) :
  let tFrac := phaseAt p o step in
  let V := Frame.V_lv fr in
  let P := Frame.P_art fr in
  let P_lv := ventricularPressure M p tFrac V in
  let Qin := valveFlow (rap p) P_lv Rval_mitral in
  let Qout := valveFlow P_lv P Rval_aortic in
  Frame.P_art (loopBody M p o step fr) =
    P + dt p o * ((Qout - P / svr_to_Rperipheral (svr p)) / comp p) /\
  Frame.V_lv (loopBody M p o step fr) = V + dt p o * (Qin - Qout).
Proof.
  cbv zeta. pose proof (loopBody_state M p o step fr) as H.
  unfold advance, mitralFlow, aorticFlow, R_per in H.
  injection H as HV HP. rewrite HV, HP.
  split; f_equal; apply Number_mul_comm.
Qed.

(** C4: the run is a function of the parameters and the options. Two calls
    with the same arguments return the same completion, hence the same trace
    and the same nine metrics; the state at loop entry is [(edv, 90)], and
    the returned trace is made of the samples computed from that state on. *)
Theorem runSimulation_deterministic (M : Math.impl) (p1 p2 : Params) (o1 o2 : Opts) :
  p1 = p2 -> o1 = o2 ->
  runSimulation M p1 o1 = runSimulation M p2 o2 /\
  stateAt M p1 o1 0 = (edv p1, 90) /\
  exists r, runSimulation M p1 o1 = Normal r /\
            runSimulation M p2 o2 = Normal r /\
            Sim.traceP r = map (sampleAt M p1 o1) (lastBeat o1).
Proof.
  intros <- <-. split; [reflexivity | split; [reflexivity | ]].
  destruct (runSimulation_returns M p1 o1) as (m & _ & Hr).
  eexists. split; [exact Hr | split; [exact Hr | reflexivity]].
Qed.

Lemma runSimulation_deterministic_witness :
  runSimulation RefMath.impl normal defaultOpts =
  runSimulation RefMath.impl normal defaultOpts /\
  stateAt RefMath.impl normal defaultOpts 0 = (120, 90) /\
  exists r, runSimulation RefMath.impl normal defaultOpts = Normal r /\
            runSimulation RefMath.impl normal defaultOpts = Normal r /\
            Sim.traceP r = map (sampleAt RefMath.impl normal defaultOpts)
                               (lastBeat defaultOpts).
Proof.
  apply (runSimulation_deterministic RefMath.impl normal normal defaultOpts defaultOpts);
    reflexivity.
Defined.

(** C5: with [beats > 0] and [stepsPerBeat > 0] the returned trace has
    exactly [stepsPerBeat] samples: the samples of the steps
    [(beats - 1) * stepsPerBeat], ..., [beats * stepsPerBeat - 1], in this
    order. No sample of an earlier step is in it. *)
Theorem trace_is_last_beat (M : Math.impl) (p : Params) (o : Opts) :
  (0 < beats o)%Z -> (0 < stepsPerBeat o)%Z ->
  exists r, runSimulation M p o = Normal r /\
            length (Sim.traceP r) = Z.to_nat (stepsPerBeat o) /\
            Sim.traceP r =
              map (sampleAt M p o)
                  (seq (Z.to_nat ((beats o - 1) * stepsPerBeat o)) (Z.to_nat (stepsPerBeat o))).
Proof.
  intros Hb Hs. destruct (runSimulation_returns M p o) as (m & _ & Hr).
  eexists. split; [exact Hr | ]. cbn [Sim.traceP].
  assert (Hl : lastBeat o =
               seq (Z.to_nat ((beats o - 1) * stepsPerBeat o)) (Z.to_nat (stepsPerBeat o))).
  { unfold lastBeat, totalSteps. f_equal; nia. }
  rewrite Hl, length_map, length_seq. split; reflexivity.
Qed.

Lemma trace_is_last_beat_witness :
  (0 < 8)%Z /\ (0 < 400)%Z /\
  exists r, runSimulation RefMath.impl normal defaultOpts = Normal r /\
            length (Sim.traceP r) = 400%nat /\
            Sim.traceP r =
              map (sampleAt RefMath.impl normal defaultOpts)
                  (seq 2800 400).
Proof.
  split; [reflexivity | split; [reflexivity | ]].
  apply (trace_is_last_beat RefMath.impl normal defaultOpts); reflexivity.
Defined.

(** C6: with the special values of ECMA-262 for [Math.sin], [Math.pow] and
    [Math.exp], the waveform is [0] at phase [0]; at the phase [ts = 0.33]
    the test [tFrac < ts] fails, the diastolic branch is taken and the value
    is exactly [0.05]. At every phase the program computes the systolic
    expression below [ts] and the diastolic one from [ts] on; at the largest
    Number below [ts] this is [Math.pow(Math.sin(y), 1.5)] for the Number
    [y] two units in the last place below [Math.PI]. What [Math.sin] and
    [Math.pow] return there is the engine's; the limit is a statement on the
    same function text in exact arithmetic: read over the real numbers,
    [normalizedElastance] is [0] at [0], is [sin(pi * t / ts)^(3/2)]
    between [0] and [ts], tends to [0] as the phase approaches [ts] from
    below, and is [0.05] at [ts]. The jump at [ts] is [0.05]. *)
Theorem elastance_boundary_values (M : Math.impl) :
  Math.conforming M ->
  normalizedElastance M 0 = 0 /\
  (ts <? ts) = false /\
  normalizedElastance M ts = 0.05 /\
  (forall tFrac,
     normalizedElastance M tFrac =
     if tFrac <? ts then Math.pow M (Math.sin M (Math.PI * (tFrac / ts))) 1.5
     else 0.05 * Math.exp M (-3 * ((tFrac - ts) / (1 - ts)))) /\
  normalizedElastance M (next_down ts) =
    Math.pow M (Math.sin M 3.1415926535897922) 1.5 /\
  Ideal.exactElastance Ideal.onset = Ideal.onset /\
  Ideal.systolic Ideal.exactElastance /\
  Ideal.vanishes_from_below Ideal.exactElastance Ideal.ts /\
  Ideal.exactElastance Ideal.ts = Ideal.tone.
Proof.
  intros [Hsin Hpow Hexp].
  assert (Hcode : forall tFrac,
     normalizedElastance M tFrac =
     if tFrac <? ts then Math.pow M (Math.sin M (Math.PI * (tFrac / ts))) 1.5
     else 0.05 * Math.exp M (-3 * ((tFrac - ts) / (1 - ts)))) by reflexivity.
  split; [ | split; [ | split; [ | split; [ | split; [ | split; [ | split; [ | split]]]]]]].
  - rewrite Hcode. change (0 <? ts) with true. cbv iota.
    change (Math.PI * (0 / ts)) with 0.
    rewrite Hsin. apply Hpow. reflexivity.
  - reflexivity.
  - rewrite Hcode. change (ts <? ts) with false. cbv iota.
    change (-3 * ((ts - ts) / (1 - ts))) with (-0).
    rewrite Hexp by reflexivity. reflexivity.
  - exact Hcode.
  - rewrite Hcode. reflexivity.
  - exact IdealFacts.value_at_zero.
  - exact IdealFacts.systolic_branch.
  - exact IdealFacts.left_limit_at_ts.
  - exact IdealFacts.value_at_ts.
Qed.

Lemma elastance_boundary_values_witness :
  normalizedElastance RefMath.impl 0 = 0 /\
  (ts <? ts) = false /\
  normalizedElastance RefMath.impl ts = 0.05 /\
  (forall tFrac,
     normalizedElastance RefMath.impl tFrac =
     if tFrac <? ts
     then Math.pow RefMath.impl (Math.sin RefMath.impl (Math.PI * (tFrac / ts))) 1.5
     else 0.05 * Math.exp RefMath.impl (-3 * ((tFrac - ts) / (1 - ts)))) /\
  normalizedElastance RefMath.impl (next_down ts) =
    Math.pow RefMath.impl (Math.sin RefMath.impl 3.1415926535897922) 1.5 /\
  Ideal.exactElastance Ideal.onset = Ideal.onset /\
  Ideal.systolic Ideal.exactElastance /\
  Ideal.vanishes_from_below Ideal.exactElastance Ideal.ts /\
  Ideal.exactElastance Ideal.ts = Ideal.tone.
Proof.
  apply (elastance_boundary_values RefMath.impl). exact RefMath_conforming.
Defined.

(** C7, as stated, fails: when both pressures are [+Infinity] the upstream
    pressure does not exceed the downstream one, yet the flow is NaN, not 0. *)
Lemma valveFlow_equal_infinities :
  (infinity <=? infinity) = true /\ (0 <? 1) = true /\
  valveFlow infinity infinity 1 = nan /\
  valveFlow infinity infinity 1 <> 0.
Proof.
  repeat split. intros H. apply (f_equal is_nan) in H. discriminate H.
Qed.

(** C7, amended: for all pressures and every resistance, the flow is
    [(P_up - P_down) / Rval] when [P_up > P_down]; it is [0] when
    [P_up <= P_down] and the difference [P_up - P_down] is a number (every
    pair of finite pressures is such; only NaN or two equal infinities are
    not), and NaN when the difference is NaN. For every [Rval > 0] the flow
    is never negative, whatever the pressures. *)
Theorem valveFlow_diode (P_up P_down Rval : float) :
  ((P_up <=? P_down) = true -> is_nan (P_up - P_down) = false ->
     valveFlow P_up P_down Rval = 0) /\
  ((P_down <? P_up) = true -> valveFlow P_up P_down Rval = (P_up - P_down) / Rval) /\
  (is_nan (P_up - P_down) = true -> valveFlow P_up P_down Rval = nan) /\
  ((0 <? Rval) = true -> (valveFlow P_up P_down Rval <? 0) = false).
Proof.
  unfold valveFlow. cbv zeta. split; [ | split; [ | split]].
  - intros Hle Hn. rewrite (sub_leb_zero _ _ Hle Hn). reflexivity.
  - intros Hgt. rewrite (sub_gt_zero _ _ Hgt). reflexivity.
  - intros Hn.
    assert (E : P_up - P_down = nan).
    { apply rep_nan. rewrite is_nan_rep in Hn.
      destruct (Prim2SF (P_up - P_down)); try discriminate Hn. reflexivity. }
    rewrite E. change (nan <=? 0) with false. cbv iota.
    apply rep_nan. rewrite div_spec. reflexivity.
  - intros HR. destruct (P_up - P_down <=? 0) eqn:Hd.
    + reflexivity.
    + apply div_not_negative; assumption.
Qed.

Lemma valveFlow_diode_witness :
  ((2 <=? 6.6) = true /\ is_nan (2 - 6.6) = false /\ (0 <? 0.005) = true) /\
  valveFlow 2 6.6 0.005 = 0 /\
  (valveFlow 2 6.6 0.005 <? 0) = false.
Proof.
  destruct (valveFlow_diode 2 6.6 0.005) as (Hclosed & _ & _ & Hsign).
  split; [split; [reflexivity | split; reflexivity] | split].
  - apply Hclosed; reflexivity.
  - apply Hsign; reflexivity.
Defined.

(** C8, as stated, fails: on the empty trace the metrics code throws
    nothing and returns a record. *)
Lemma summaryMetrics_empty_returns :
  summaryMetrics normal [] <> Throw InvalidInput /\
  exists m, summaryMetrics normal [] = Normal m /\ is_nan (Metrics.MAP m) = true.
Proof.
  split; [discriminate | ]. eexists. split; reflexivity.
Qed.

(** C8, amended: on the empty trace the metrics code does not fail. It
    returns [EDV = -Infinity], [ESV = +Infinity], [SV = 0],
    [CO = hr * 0 / 1000], [MAP = NaN], [SBP = -Infinity],
    [DBP = +Infinity], [PP = -Infinity] and [EF = 0]; a run with
    [beats <= 0] or [stepsPerBeat <= 0] has the empty trace and returns
    this record. *)
Theorem summaryMetrics_empty (M : Math.impl) (p : Params) (o : Opts) :
  let m :=
    {| Metrics.EDV := neg_infinity; Metrics.ESV := infinity; Metrics.SV := 0;
       Metrics.CO := hr p * 0 / 1000; Metrics.MAP := nan;
       Metrics.SBP := neg_infinity; Metrics.DBP := infinity;
       Metrics.PP := neg_infinity; Metrics.EF := 0 |} in
  summaryMetrics p [] = Normal m /\
  ((beats o <= 0)%Z \/ (stepsPerBeat o <= 0)%Z ->
   runSimulation M p o = Normal (Sim.mk [] [] m)).
Proof.
  cbv zeta. split; [reflexivity | ]. intros Hle.
  destruct (runSimulation_returns M p o) as (m & Hm & Hr).
  assert (Hnil : lastBeat o = []).
  { apply length_zero_iff_nil. rewrite lastBeat_length.
    destruct (Z.ltb_spec 0 (beats o)), (Z.ltb_spec 0 (stepsPerBeat o)); cbn [andb];
      try reflexivity; lia. }
  rewrite Hnil in Hm, Hr. cbn [map] in Hm, Hr. rewrite Hr. f_equal. f_equal.
  unfold summaryMetrics in Hm. cbn in Hm. injection Hm as <-. reflexivity.
Qed.

Lemma summaryMetrics_empty_witness :
  summaryMetrics normal [] =
    Normal {| Metrics.EDV := neg_infinity; Metrics.ESV := infinity; Metrics.SV := 0;
              Metrics.CO := 75 * 0 / 1000; Metrics.MAP := nan;
              Metrics.SBP := neg_infinity; Metrics.DBP := infinity;
              Metrics.PP := neg_infinity; Metrics.EF := 0 |} /\
  runSimulation RefMath.impl normal {| stepsPerBeat := 400; beats := 0 |} =
    Normal (Sim.mk [] []
              {| Metrics.EDV := neg_infinity; Metrics.ESV := infinity; Metrics.SV := 0;
                 Metrics.CO := 75 * 0 / 1000; Metrics.MAP := nan;
                 Metrics.SBP := neg_infinity; Metrics.DBP := infinity;
                 Metrics.PP := neg_infinity; Metrics.EF := 0 |}).
Proof.
  destruct (summaryMetrics_empty RefMath.impl normal {| stepsPerBeat := 400; beats := 0 |})
    as [H1 H2].
  split; [exact H1 | ]. apply H2. left. cbn. lia.
Defined.

(** C9, as stated, fails: with the smallest positive compliance a run of
    three steps returns a non-empty trace whose metrics are NaN, so that
    neither [EDV >= ESV] nor [PP >= 0] holds. *)
Lemma non_finite_metrics :
  exists r, runSimulation RefMath.impl stiff {| stepsPerBeat := 3; beats := 1 |} = Normal r /\
            Sim.traceP r <> [] /\
            (Metrics.ESV (Sim.metrics r) <=? Metrics.EDV (Sim.metrics r)) = false /\
            (Metrics.DBP (Sim.metrics r) <=? Metrics.SBP (Sim.metrics r)) = false /\
            (0 <=? Metrics.PP (Sim.metrics r)) = false.
Proof.
  eexists. split; [vm_compute; reflexivity | ].
  split; [discriminate | repeat split].
Qed.

(** C9, amended: for every run that returns a non-empty trace whose samples
    all have a finite volume and a finite arterial pressure, [EDV >= ESV]
    and [SBP >= DBP], [SV] is exactly [EDV - ESV], and [PP >= 0]. *)
Theorem metrics_ordered (M : Math.impl) (p : Params) (o : Opts) (r : Sim.t) :
  runSimulation M p o = Normal r ->
  Sim.traceP r <> [] ->
  forallb finiteSample (Sim.traceP r) = true ->
  let m := Sim.metrics r in
  (Metrics.ESV m <=? Metrics.EDV m) = true /\
  (Metrics.DBP m <=? Metrics.SBP m) = true /\
  Metrics.SV m = Metrics.EDV m - Metrics.ESV m /\
  (0 <=? Metrics.PP m) = true.
Proof.
  intros Hr Hne Hfin. unfold runSimulation in Hr. cbv zeta in Hr.
  unfold summaryMetrics in Hr. injection Hr as <-.
  cbn [Sim.traceP Sim.metrics] in *. cbv zeta.
  set (tr := Frame.traceP _) in *.
  cbn [Metrics.ESV Metrics.EDV Metrics.DBP Metrics.SBP Metrics.SV Metrics.PP].
  rewrite forallb_forall in Hfin.
  assert (HV : all_finite (map Sample.V_lv tr)).
  { intros x Hx. apply in_map_iff in Hx. destruct Hx as (s & <- & Hs).
    specialize (Hfin s Hs). unfold finiteSample in Hfin.
    apply andb_true_iff in Hfin. apply Hfin. }
  assert (HP : all_finite (map Sample.P_art tr)).
  { intros x Hx. apply in_map_iff in Hx. destruct Hx as (s & <- & Hs).
    specialize (Hfin s Hs). unfold finiteSample in Hfin.
    apply andb_true_iff in Hfin. apply Hfin. }
  assert (NV : map Sample.V_lv tr <> []) by (destruct tr; [contradiction | discriminate]).
  assert (NP : map Sample.P_art tr <> []) by (destruct tr; [contradiction | discriminate]).
  destruct (extremes_finite _ NV HV) as [V1 V2].
  destruct (extremes_finite _ NP HP) as [P1 P2].
  repeat split.
  - exact V1.
  - exact P1.
  - apply max_zero_signed. exact V2.
  - apply signed_false_zero_leb. exact P2.
Qed.

Lemma metrics_ordered_witness :
  exists r, runSimulation RefMath.impl normal {| stepsPerBeat := 8; beats := 2 |} = Normal r /\
            Sim.traceP r <> [] /\
            forallb finiteSample (Sim.traceP r) = true /\
            (Metrics.ESV (Sim.metrics r) <=? Metrics.EDV (Sim.metrics r)) = true /\
            (Metrics.DBP (Sim.metrics r) <=? Metrics.SBP (Sim.metrics r)) = true /\
            Metrics.SV (Sim.metrics r) = Metrics.EDV (Sim.metrics r) - Metrics.ESV (Sim.metrics r) /\
            (0 <=? Metrics.PP (Sim.metrics r)) = true.
Proof.
  eexists. split; [vm_compute; reflexivity | ].
  split; [discriminate | ]. split; [vm_compute; reflexivity | ].
  apply (metrics_ordered RefMath.impl normal {| stepsPerBeat := 8; beats := 2 |}).
  - vm_compute. reflexivity.
  - discriminate.
  - vm_compute. reflexivity.
Defined.

(** C10: besides the trace and the metrics, the returned record has the
    list [pvPoints]. It has the length of the trace and, index by index, its
    point is [(x, y) = (V_lv, P_lv)] of the sample of the trace. *)
Theorem pvPoints_mirror_trace (M : Math.impl) (p : Params) (o : Opts) :
  exists r, runSimulation M p o = Normal r /\
            length (Sim.pvPoints r) = length (Sim.traceP r) /\
            forall i, nth_error (Sim.pvPoints r) i =
                      option_map (fun s => Point.mk (Sample.V_lv s) (Sample.P_lv s))
                                 (nth_error (Sim.traceP r) i).
Proof.
  destruct (runSimulation_returns M p o) as (m & _ & Hr).
  eexists. split; [exact Hr | ]. cbn [Sim.traceP Sim.pvPoints].
  split; [apply length_map | ].
  intros i. rewrite nth_error_map. reflexivity.
Qed.

(** * Further properties of the code *)

(** ** What the run reads *)

Section RunInputs.

Variable M : Math.impl.

Lemma loopBody_inputs (p q : Params) (o : Opts) (step : Z) (fr : Frame.t) :
  engineInputs p = engineInputs q -> loopBody M p o step fr = loopBody M q o step fr.
Proof.
  destruct p, q. unfold engineInputs. cbn. intros H.
  injection H as -> -> -> -> -> -> -> ->. reflexivity.
Qed.

Lemma forLoop_inputs (p q : Params) (o : Opts) (n : nat) :
  engineInputs p = engineInputs q ->
  forall step fr, forLoop M p o n step fr = forLoop M q o n step fr.
Proof.
  intros H. induction n as [ | n IH]; intros step fr; cbn [forLoop].
  - reflexivity.
  - rewrite (loopBody_inputs p q o step fr H). apply IH.
Qed.

(** The three parts of a run read the same in two parameter objects that
    agree on the fields of [engineInputs]. *)
Lemma run_parts_inputs (p q : Params) (o : Opts) :
  engineInputs p = engineInputs q ->
  (forall n step fr, forLoop M p o n step fr = forLoop M q o n step fr) /\
  initialFrame p = initialFrame q /\
  (forall tr, summaryMetrics p tr = summaryMetrics q tr).
Proof.
  intros H. split; [intros n; apply forLoop_inputs; exact H | ].
  unfold initialFrame, summaryMetrics, engineInputs in *.
  injection H as -> -> _. split; reflexivity.
Qed.

(** X1: the result of [runSimulation] depends on the parameter object only
    through [hr], [edv], [svr], [comp], [rap], [Emax], [Emin] and [V0]:
    two objects that agree on these give the same result, whatever their
    [esv], [contr] and [autoEsv]. *)
Theorem runSimulation_ignores_hints (p q : Params) (o : Opts) :
  engineInputs p = engineInputs q -> runSimulation M p o = runSimulation M q o.
Proof.
  intros H. destruct (run_parts_inputs p q o H) as (Hloop & Hinit & Hsum).
  unfold runSimulation. cbv zeta. rewrite Hloop, Hinit, Hsum. reflexivity.
Qed.

Lemma stateAt_beats (p : Params) (o o' : Opts) (k : nat) :
  stepsPerBeat o = stepsPerBeat o' -> stateAt M p o k = stateAt M p o' k.
Proof.
  intros H. induction k as [ | k IH]; cbn [stateAt].
  - reflexivity.
  - rewrite IH. destruct o, o'. cbn in H. subst. reflexivity.
Qed.

Lemma sampleAt_beats (p : Params) (o o' : Opts) (k : nat) :
  stepsPerBeat o = stepsPerBeat o' -> sampleAt M p o k = sampleAt M p o' k.
Proof.
  intros H. unfold sampleAt.
  rewrite (stateAt_beats p o o' k H), (stateAt_beats p o o' (S k) H).
  destruct o, o'. cbn in H. subst. reflexivity.
Qed.

End RunInputs.

Lemma runSimulation_ignores_hints_witness :
  runSimulation RefMath.impl normal defaultOpts =
  runSimulation RefMath.impl
    {| hr := 75; edv := 120; esv := 80; autoEsv := true; contr := 0.9;
       svr := 1200; comp := 1.5; rap := 2; Emax := 2.0; Emin := 0.06; V0 := 10 |}
    defaultOpts.
Proof.
  apply (runSimulation_ignores_hints RefMath.impl). reflexivity.
Defined.

(** X2: the number of beats does not change the trajectory, only the window
    that is returned. With [stepsPerBeat = s > 0], the trace of a run of
    [b > 0] beats is made of the steps [(b - 1) * s], ..., [b * s - 1] of
    the run of any other number [b'] of beats. *)
Theorem beats_select_window (M : Math.impl) (p : Params) (s b b' : Z) :
  (0 < s)%Z -> (0 < b)%Z ->
  exists r, runSimulation M p {| stepsPerBeat := s; beats := b |} = Normal r /\
            Sim.traceP r =
              map (sampleAt M p {| stepsPerBeat := s; beats := b' |})
                  (seq (Z.to_nat ((b - 1) * s)) (Z.to_nat s)).
Proof.
  intros Hs Hb.
  destruct (runSimulation_returns M p {| stepsPerBeat := s; beats := b |}) as (m & _ & Hr).
  eexists. split; [exact Hr | ]. cbn [Sim.traceP].
  assert (Hl : lastBeat {| stepsPerBeat := s; beats := b |} =
               seq (Z.to_nat ((b - 1) * s)) (Z.to_nat s)).
  { unfold lastBeat, totalSteps. cbn [beats stepsPerBeat]. f_equal; nia. }
  rewrite Hl. apply map_ext. intros k. apply sampleAt_beats. reflexivity.
Qed.

Lemma beats_select_window_witness :
  exists r, runSimulation RefMath.impl normal {| stepsPerBeat := 400; beats := 8 |} = Normal r /\
            Sim.traceP r =
              map (sampleAt RefMath.impl normal {| stepsPerBeat := 400; beats := 16 |})
                  (seq 2800 400).
Proof.
  apply (beats_select_window RefMath.impl normal 400 8 16); reflexivity.
Defined.

(** ** Numbers that are not finite, and NaN *)

Section NonFiniteFacts.

Lemma add_not_finite_l (x y : float) : is_finite x = false -> is_finite (x + y) = false.
Proof.
  rewrite !is_finite_rep, add_spec. unfold SF64add, SFadd.
  destruct (Prim2SF x) as [sx | [ | ] | | sx mx ex]; try discriminate; intros _;
    destruct (Prim2SF y) as [sy | [ | ] | | sy my ey]; reflexivity.
Qed.

Lemma add_not_finite_r (x y : float) : is_finite y = false -> is_finite (x + y) = false.
Proof.
  rewrite !is_finite_rep, add_spec. unfold SF64add, SFadd.
  destruct (Prim2SF y) as [sy | [ | ] | | sy my ey]; try discriminate; intros _;
    destruct (Prim2SF x) as [sx | [ | ] | | sx mx ex]; reflexivity.
Qed.

Lemma sub_not_finite_r (x y : float) : is_finite y = false -> is_finite (x - y) = false.
Proof.
  rewrite !is_finite_rep, sub_spec. unfold SF64sub, SFsub.
  destruct (Prim2SF y) as [sy | [ | ] | | sy my ey]; try discriminate; intros _;
    destruct (Prim2SF x) as [sx | [ | ] | | sx mx ex]; reflexivity.
Qed.

Lemma mul_not_finite_l (x y : float) : is_finite x = false -> is_finite (x * y) = false.
Proof.
  rewrite !is_finite_rep, mul_spec. unfold SF64mul, SFmul.
  destruct (Prim2SF x) as [sx | sx | | sx mx ex]; try discriminate; intros _;
    destruct (Prim2SF y) as [sy | sy | | sy my ey]; reflexivity.
Qed.

Lemma mul_not_finite_r (x y : float) : is_finite y = false -> is_finite (x * y) = false.
Proof.
  rewrite !is_finite_rep, mul_spec. unfold SF64mul, SFmul.
  destruct (Prim2SF y) as [sy | sy | | sy my ey]; try discriminate; intros _;
    destruct (Prim2SF x) as [sx | sx | | sx mx ex]; reflexivity.
Qed.

Lemma div_not_finite_l (x y : float) : is_finite x = false -> is_finite (x / y) = false.
Proof.
  rewrite !is_finite_rep, div_spec. unfold SF64div, SFdiv.
  destruct (Prim2SF x) as [sx | sx | | sx mx ex]; try discriminate; intros _;
    destruct (Prim2SF y) as [sy | sy | | sy my ey]; reflexivity.
Qed.

(** A division by [+0] or [-0] gives an infinity or NaN. *)
Lemma div_zero_not_finite (x y : float) : is_zero y = true -> is_finite (x / y) = false.
Proof.
  rewrite is_zero_rep, is_finite_rep, div_spec. unfold SF64div, SFdiv.
  destruct (Prim2SF y) as [sy | sy | | sy my ey]; try discriminate; intros _;
    destruct (Prim2SF x) as [sx | sx | | sx mx ex]; reflexivity.
Qed.

(** A zero divided by a finite Number other than zero is a zero. *)
Lemma zero_div (x y : float) :
  is_zero x = true -> is_finite y = true -> is_zero y = false -> is_zero (x / y) = true.
Proof.
  rewrite !is_zero_rep, is_finite_rep, div_spec. unfold SF64div, SFdiv.
  destruct (Prim2SF x) as [sx | sx | | sx mx ex]; try discriminate; intros _;
    destruct (Prim2SF y) as [sy | sy | | sy my ey]; try discriminate; reflexivity.
Qed.

Lemma is_nan_true (x : float) : is_nan x = true -> x = nan.
Proof.
  rewrite is_nan_rep. intros H. apply rep_nan.
  destruct (Prim2SF x); try discriminate; reflexivity.
Qed.

Lemma add_nan_l (y : float) : nan + y = nan.
Proof. apply rep_nan. rewrite add_spec. reflexivity. Qed.

Lemma add_nan_r (x : float) : x + nan = nan.
Proof.
  apply rep_nan. rewrite add_spec. change (Prim2SF nan) with S754_nan.
  destruct (Prim2SF x) as [sx | sx | | sx mx ex]; reflexivity.
Qed.

Lemma sub_nan_l (y : float) : nan - y = nan.
Proof. apply rep_nan. rewrite sub_spec. reflexivity. Qed.

Lemma mul_nan_r (x : float) : x * nan = nan.
Proof.
  apply rep_nan. rewrite mul_spec. change (Prim2SF nan) with S754_nan.
  destruct (Prim2SF x) as [sx | sx | | sx mx ex]; reflexivity.
Qed.

Lemma div_nan_l (y : float) : nan / y = nan.
Proof. apply rep_nan. rewrite div_spec. reflexivity. Qed.

(** The remainder of an infinity or of NaN is NaN. *)
Lemma rem_not_finite (n d : float) : is_finite n = false -> Number.rem n d = nan.
Proof.
  rewrite is_finite_rep. unfold Number.rem, Number.SFrem.
  destruct (Prim2SF n) as [sn | sn | | sn mn en]; try discriminate; intros _;
    destruct (Prim2SF d) as [sd | sd | | sd md ed]; reflexivity.
Qed.

End NonFiniteFacts.

(** ** Signs of products and quotients *)

Section SignFacts.

Lemma SFmul_nn (a b : spec_float) :
  nn a -> nn b -> nn (SF64mul a b).
Proof.
  unfold nn. intros [-> | Sa]; [left; reflexivity | ].
  intros [-> | Sb]; [left; destruct a; reflexivity | ].
  destruct a as [sa | sa | | sa ma ea], b as [sb | sb | | sb mb eb];
    cbn in Sa, Sb; try contradiction; subst; cbn [SF64mul SFmul xorb];
    try (left; reflexivity); try (right; reflexivity).
  apply binary_round_aux_sign.
Qed.

Lemma SFdiv_nn (a b : spec_float) :
  nn a -> nn b -> nn (SF64div a b).
Proof.
  unfold nn. intros [-> | Sa]; [left; reflexivity | ].
  intros [-> | Sb]; [left; destruct a; reflexivity | ].
  destruct a as [sa | sa | | sa ma ea], b as [sb | sb | | sb mb eb];
    cbn in Sa, Sb; try contradiction; subst; cbn [SF64div SFdiv xorb];
    try (left; reflexivity); try (right; reflexivity).
  destruct (SFdiv_core_binary prec emax (Zpos ma) ea (Zpos mb) eb) as [[mz ez] lz].
  apply binary_round_aux_sign.
Qed.

Lemma nn_not_negative (x : float) : nn (Prim2SF x) -> (x <? 0) = false.
Proof.
  rewrite ltb_spec. change (Prim2SF 0) with (S754_zero false).
  intros [-> | S]; [reflexivity | ].
  destruct (Prim2SF x) as [s | s | | s m e]; cbn in S; try contradiction; subst; reflexivity.
Qed.

Lemma positive_nn (x : float) : (0 <? x) = true -> nn (Prim2SF x).
Proof.
  rewrite ltb_spec. change (Prim2SF 0) with (S754_zero false).
  destruct (Prim2SF x) as [s | [ | ] | | [ | ] m e]; cbn; intros H; try discriminate;
    right; reflexivity.
Qed.

(** [Math.max(0, d)], case by case. *)
Lemma max_zero_cases (d : float) :
  Math.max [0; d] = if is_nan d then nan else if 0 <? d then d else 0.
Proof.
  unfold Math.max. cbn [Math.max_from].
  change (is_nan 0) with false.
  change (Number.is_pos_zero 0 && Number.is_neg_zero neg_infinity) with false.
  change (neg_infinity <? 0) with true. cbv iota.
  change (Number.is_neg_zero 0) with false. rewrite andb_false_r. reflexivity.
Qed.

Lemma max_zero_nn (d : float) : nn (Prim2SF (Math.max [0; d])).
Proof.
  rewrite max_zero_cases. destruct (is_nan d).
  - left. reflexivity.
  - destruct (0 <? d) eqn:Hd.
    + apply positive_nn. exact Hd.
    + right. reflexivity.
Qed.

Lemma mul_not_negative (a b : float) :
  (a <? 0) = false -> nn (Prim2SF b) -> (a * b <? 0) = false.
Proof.
  rewrite !ltb_spec, mul_spec. change (Prim2SF 0) with (S754_zero false).
  intros Ha Hb.
  destruct (Prim2SF a) as [sa | [ | ] | | [ | ] ma ea] eqn:Ea; try discriminate.
  - destruct Hb as [-> | Sb]; [reflexivity | ].
    destruct (Prim2SF b) as [sb | sb | | sb mb eb]; cbn in Sb; try contradiction; subst;
      destruct sa; reflexivity.
  - assert (H : nn (SF64mul (S754_infinity false) (Prim2SF b)))
      by (apply SFmul_nn; [right; reflexivity | exact Hb]).
    destruct H as [-> | S]; [reflexivity | ].
    destruct (SF64mul _ _) as [s | s | | s m e]; cbn in S; try contradiction; subst; reflexivity.
  - destruct (Prim2SF b); reflexivity.
  - assert (H : nn (SF64mul (S754_finite false ma ea) (Prim2SF b)))
      by (apply SFmul_nn; [right; reflexivity | exact Hb]).
    destruct H as [-> | S]; [reflexivity | ].
    destruct (SF64mul _ _) as [s | s | | s m e]; cbn in S; try contradiction; subst; reflexivity.
Qed.

End SignFacts.

(** ** The metrics *)

Section MetricsFacts.

(** X3: in the record of every run, for all parameters and options and
    whatever the trace holds, the stroke volume [SV] and the ejection
    fraction [EF] are never negative. *)
Theorem SV_EF_never_negative (M : Math.impl) (p : Params) (o : Opts) :
  exists r, runSimulation M p o = Normal r /\
            (Metrics.SV (Sim.metrics r) <? 0) = false /\
            (Metrics.EF (Sim.metrics r) <? 0) = false.
Proof.
  destruct (runSimulation_returns M p o) as (m & Hm & Hr).
  eexists. split; [exact Hr | ]. cbn [Sim.metrics].
  unfold summaryMetrics in Hm. cbv zeta in Hm. injection Hm as <-.
  cbn [Metrics.SV Metrics.EF]. split.
  - apply nn_not_negative, max_zero_nn.
  - destruct (0 <? Math.max _) eqn:Hpos; [ | reflexivity].
    apply nn_not_negative. rewrite mul_spec, div_spec.
    apply SFmul_nn; [ | right; reflexivity].
    apply SFdiv_nn; [apply max_zero_nn | apply positive_nn; exact Hpos].
Qed.

Lemma extremes_attained (l : list float) :
  l <> [] -> all_finite l ->
  In (Math.max l) l /\ In (Math.min l) l /\
  forall x, In x l -> (Math.min l <=? x) = true /\ (x <=? Math.max l) = true.
Proof.
  intros Hne Hf. destruct l as [ | n rest]; [contradiction | ].
  pose proof (all_finite_no_nan _ Hf) as Nl.
  destruct (no_nan_cons n rest Nl) as [Nn Nrest].
  rewrite max_finite, min_finite by exact Hf.
  destruct (max_from_spec rest n Nn Nrest) as (A1 & A2 & A3 & A4 & _).
  destruct (min_from_spec rest n Nn Nrest) as (B1 & B2 & B3 & B4).
  split; [destruct A2 as [-> | ?]; [left | right]; auto | ].
  split; [destruct B2 as [-> | ?]; [left | right]; auto | ].
  intros x Hx. assert (Nx : is_nan x = false) by (apply Nl; exact Hx).
  rewrite !leb_F2Z by assumption. rewrite !Z.leb_le.
  destruct Hx as [<- | Hx]; [lia | ]. split; [apply B4 | apply A4]; exact Hx.
Qed.

(** X4: when the returned trace is not empty and its samples have finite
    volume and pressure, [EDV] and [ESV] are the volumes of two samples of
    the trace and lie above and below the volume of every sample; [SBP] and
    [DBP] are so for the arterial pressures. *)
Theorem metrics_are_extremes (M : Math.impl) (p : Params) (o : Opts) (r : Sim.t) :
  runSimulation M p o = Normal r ->
  Sim.traceP r <> [] ->
  forallb finiteSample (Sim.traceP r) = true ->
  let m := Sim.metrics r in
  In (Metrics.EDV m) (map Sample.V_lv (Sim.traceP r)) /\
  In (Metrics.ESV m) (map Sample.V_lv (Sim.traceP r)) /\
  In (Metrics.SBP m) (map Sample.P_art (Sim.traceP r)) /\
  In (Metrics.DBP m) (map Sample.P_art (Sim.traceP r)) /\
  forall s, In s (Sim.traceP r) ->
    (Metrics.ESV m <=? Sample.V_lv s) = true /\ (Sample.V_lv s <=? Metrics.EDV m) = true /\
    (Metrics.DBP m <=? Sample.P_art s) = true /\ (Sample.P_art s <=? Metrics.SBP m) = true.
Proof.
  intros Hr Hne Hfin. unfold runSimulation in Hr. cbv zeta in Hr.
  unfold summaryMetrics in Hr. injection Hr as <-.
  cbn [Sim.traceP Sim.metrics] in *. cbv zeta.
  set (tr := Frame.traceP _) in *.
  cbn [Metrics.ESV Metrics.EDV Metrics.DBP Metrics.SBP].
  rewrite forallb_forall in Hfin.
  assert (HV : all_finite (map Sample.V_lv tr)).
  { intros x Hx. apply in_map_iff in Hx. destruct Hx as (s & <- & Hs).
    specialize (Hfin s Hs). unfold finiteSample in Hfin.
    apply andb_true_iff in Hfin. apply Hfin. }
  assert (HP : all_finite (map Sample.P_art tr)).
  { intros x Hx. apply in_map_iff in Hx. destruct Hx as (s & <- & Hs).
    specialize (Hfin s Hs). unfold finiteSample in Hfin.
    apply andb_true_iff in Hfin. apply Hfin. }
  assert (NV : map Sample.V_lv tr <> []) by (destruct tr; [contradiction | discriminate]).
  assert (NP : map Sample.P_art tr <> []) by (destruct tr; [contradiction | discriminate]).
  destruct (extremes_attained _ NV HV) as (V1 & V2 & V3).
  destruct (extremes_attained _ NP HP) as (P1 & P2 & P3).
  repeat split; try assumption.
  - apply V3, in_map, H.
  - apply V3, in_map, H.
  - apply P3, in_map, H.
  - apply P3, in_map, H.
Qed.

Lemma max_from_nan (l : list float) (x : float) :
  In x l -> is_nan x = true -> forall h, Math.max_from h l = nan.
Proof.
  intros Hin Hx. induction l as [ | n rest IH]; [contradiction | ].
  intros h. cbn [Math.max_from]. destruct (is_nan n) eqn:Hn; [reflexivity | ].
  destruct Hin as [-> | Hin]; [congruence | ].
  destruct (_ && _); [ | destruct (h <? n)]; apply IH; exact Hin.
Qed.

Lemma min_from_nan (l : list float) (x : float) :
  In x l -> is_nan x = true -> forall h, Math.min_from h l = nan.
Proof.
  intros Hin Hx. induction l as [ | n rest IH]; [contradiction | ].
  intros h. cbn [Math.min_from]. destruct (is_nan n) eqn:Hn; [reflexivity | ].
  destruct Hin as [-> | Hin]; [congruence | ].
  destruct (_ && _); [ | destruct (n <? h)]; apply IH; exact Hin.
Qed.

Lemma sum_from_nan (l : list float) : fold_left add l nan = nan.
Proof.
  induction l as [ | n rest IH]; cbn [fold_left]; [reflexivity | ].
  rewrite add_nan_l. exact IH.
Qed.

Lemma sum_nan (l : list float) (x : float) :
  In x l -> is_nan x = true -> forall acc, fold_left add l acc = nan.
Proof.
  intros Hin Hx. induction l as [ | n rest IH]; [contradiction | ].
  intros acc. cbn [fold_left]. destruct Hin as [-> | Hin].
  - rewrite (is_nan_true _ Hx), add_nan_r. apply sum_from_nan.
  - apply IH. exact Hin.
Qed.

(** X5: one NaN in the returned trace takes the metrics with it. If a
    sample has a NaN volume, then [EDV], [ESV], [SV] and [CO] are NaN and
    [EF] is [0]; if a sample has a NaN arterial pressure, then [MAP],
    [SBP], [DBP] and [PP] are NaN. *)
Theorem nan_sample_spoils_metrics (M : Math.impl) (p : Params) (o : Opts) (r : Sim.t) :
  runSimulation M p o = Normal r ->
  let m := Sim.metrics r in
  ((exists s, In s (Sim.traceP r) /\ is_nan (Sample.V_lv s) = true) ->
   Metrics.EDV m = nan /\ Metrics.ESV m = nan /\ Metrics.SV m = nan /\
   Metrics.CO m = nan /\ Metrics.EF m = 0) /\
  ((exists s, In s (Sim.traceP r) /\ is_nan (Sample.P_art s) = true) ->
   Metrics.MAP m = nan /\ Metrics.SBP m = nan /\ Metrics.DBP m = nan /\
   Metrics.PP m = nan).
Proof.
  intros Hr. unfold runSimulation in Hr. cbv zeta in Hr.
  unfold summaryMetrics in Hr. injection Hr as <-.
  cbn [Sim.traceP Sim.metrics] in *. cbv zeta.
  set (tr := Frame.traceP _) in *.
  cbn [Metrics.ESV Metrics.EDV Metrics.DBP Metrics.SBP Metrics.SV Metrics.CO
       Metrics.EF Metrics.MAP Metrics.PP].
  split; intros (s & Hs & Hn).
  - assert (Hmax : Math.max (map Sample.V_lv tr) = nan)
      by (apply (max_from_nan _ (Sample.V_lv s)); [apply in_map; exact Hs | exact Hn]).
    assert (Hmin : Math.min (map Sample.V_lv tr) = nan)
      by (apply (min_from_nan _ (Sample.V_lv s)); [apply in_map; exact Hs | exact Hn]).
    rewrite Hmax, Hmin. rewrite sub_nan_l.
    change (Math.max [0; nan]) with nan. rewrite mul_nan_r, div_nan_l.
    repeat split.
  - assert (Hmax : Math.max (map Sample.P_art tr) = nan)
      by (apply (max_from_nan _ (Sample.P_art s)); [apply in_map; exact Hs | exact Hn]).
    assert (Hmin : Math.min (map Sample.P_art tr) = nan)
      by (apply (min_from_nan _ (Sample.P_art s)); [apply in_map; exact Hs | exact Hn]).
    rewrite Hmax, Hmin.
    rewrite (sum_nan _ (Sample.P_art s)) by (try apply in_map; assumption).
    rewrite div_nan_l. repeat split.
Qed.

End MetricsFacts.

Lemma metrics_are_extremes_witness :
  exists r, runSimulation RefMath.impl normal {| stepsPerBeat := 8; beats := 2 |} = Normal r /\
    In (Metrics.EDV (Sim.metrics r)) (map Sample.V_lv (Sim.traceP r)) /\
    In (Metrics.ESV (Sim.metrics r)) (map Sample.V_lv (Sim.traceP r)) /\
    In (Metrics.SBP (Sim.metrics r)) (map Sample.P_art (Sim.traceP r)) /\
    In (Metrics.DBP (Sim.metrics r)) (map Sample.P_art (Sim.traceP r)) /\
    forall s, In s (Sim.traceP r) ->
      (Metrics.ESV (Sim.metrics r) <=? Sample.V_lv s) = true /\
      (Sample.V_lv s <=? Metrics.EDV (Sim.metrics r)) = true /\
      (Metrics.DBP (Sim.metrics r) <=? Sample.P_art s) = true /\
      (Sample.P_art s <=? Metrics.SBP (Sim.metrics r)) = true.
Proof.
  eexists. split; [vm_compute; reflexivity | ].
  apply (metrics_are_extremes RefMath.impl normal {| stepsPerBeat := 8; beats := 2 |}).
  - vm_compute. reflexivity.
  - discriminate.
  - vm_compute. reflexivity.
Defined.

Lemma nan_sample_spoils_metrics_witness :
  exists r, runSimulation RefMath.impl stiff {| stepsPerBeat := 3; beats := 1 |} = Normal r /\
    (exists s, In s (Sim.traceP r) /\ is_nan (Sample.V_lv s) = true) /\
    Metrics.EDV (Sim.metrics r) = nan /\ Metrics.ESV (Sim.metrics r) = nan /\
    Metrics.SV (Sim.metrics r) = nan /\ Metrics.CO (Sim.metrics r) = nan /\
    Metrics.EF (Sim.metrics r) = 0.
Proof.
  eexists. split; [vm_compute; reflexivity | ].
  match goal with
  | |- (exists s, In s ?tr /\ _) /\ _ =>
      assert (H : exists s, In s tr /\ is_nan (Sample.V_lv s) = true)
  end.
  { eexists. split; [right; right; left; reflexivity | reflexivity]. }
  split; [exact H | ].
  refine (proj1 (nan_sample_spoils_metrics RefMath.impl stiff
                   {| stepsPerBeat := 3; beats := 1 |} _ _) H).
  vm_compute. reflexivity.
Defined.

(** ** The state along the run *)

Section StateFacts.

Variable M : Math.impl.
Variable p : Params.
Variable o : Opts.

Lemma advance_not_finite (step : Z) (s : float * float) :
  (is_finite (fst s) = false -> is_finite (fst (advance M p o step s)) = false) /\
  (is_finite (snd s) = false -> is_finite (snd (advance M p o step s)) = false).
Proof.
  destruct s as [V P]. unfold advance. cbn [fst snd].
  split; intros H; apply add_not_finite_l; exact H.
Qed.

Lemma stateAt_not_finite (k j : nat) :
  (k <= j)%nat ->
  (is_finite (fst (stateAt M p o k)) = false -> is_finite (fst (stateAt M p o j)) = false) /\
  (is_finite (snd (stateAt M p o k)) = false -> is_finite (snd (stateAt M p o j)) = false).
Proof.
  induction 1 as [ | j Hle [IHV IHP]]; [split; auto | ].
  cbn [stateAt]. destruct (advance_not_finite (Z.of_nat j) (stateAt M p o j)) as [HV HP].
  split; intros H; [apply HV, IHV, H | apply HP, IHP, H].
Qed.

Lemma trace_nth (r : Sim.t) (i : nat) (s : Sample.t) :
  runSimulation M p o = Normal r ->
  nth_error (Sim.traceP r) i = Some s ->
  s = sampleAt M p o (Z.to_nat (totalSteps o - stepsPerBeat o) + i).
Proof.
  intros Hr Hi. destruct (runSimulation_returns M p o) as (m & _ & Hr').
  rewrite Hr' in Hr. injection Hr as <-. cbn [Sim.traceP] in Hi.
  assert (Hlen : (i < length (lastBeat o))%nat).
  { apply nth_error_Some. rewrite nth_error_map in Hi.
    destruct (nth_error (lastBeat o) i); [discriminate | discriminate Hi]. }
  unfold lastBeat in Hi, Hlen. rewrite length_seq in Hlen.
  rewrite nth_error_map_seq in Hi by exact Hlen. congruence.
Qed.

(** X6: a state variable that is not finite never becomes finite again. In
    the returned trace, if the volume (the arterial pressure) of a sample is
    an infinity or NaN, so is the volume (the arterial pressure) of every
    later sample. *)
Theorem non_finite_is_absorbing (r : Sim.t) (i j : nat) (si sj : Sample.t) :
  runSimulation M p o = Normal r ->
  (i <= j)%nat ->
  nth_error (Sim.traceP r) i = Some si ->
  nth_error (Sim.traceP r) j = Some sj ->
  (is_finite (Sample.V_lv si) = false -> is_finite (Sample.V_lv sj) = false) /\
  (is_finite (Sample.P_art si) = false -> is_finite (Sample.P_art sj) = false).
Proof.
  intros Hr Hij Hi Hj.
  rewrite (trace_nth r i si Hr Hi), (trace_nth r j sj Hr Hj).
  unfold sampleAt. cbn [Sample.V_lv Sample.P_art].
  apply stateAt_not_finite. lia.
Qed.

Lemma R_per_zero : is_zero (svr p) = true -> is_zero (R_per p) = true.
Proof.
  intros H. unfold R_per, svr_to_Rperipheral.
  apply zero_div; [ | reflexivity | reflexivity].
  apply zero_div; [exact H | reflexivity | reflexivity].
Qed.

Lemma advance_pressure_not_finite (step : Z) (s : float * float) :
  is_zero (comp p) = true \/ is_zero (svr p) = true ->
  is_finite (snd (advance M p o step s)) = false.
Proof.
  intros H. destruct s as [V P]. unfold advance. cbn [snd].
  apply add_not_finite_r, mul_not_finite_l.
  destruct H as [Hc | Hs].
  - apply div_zero_not_finite. exact Hc.
  - apply div_not_finite_l, sub_not_finite_r, div_zero_not_finite, R_per_zero. exact Hs.
Qed.

(** X7: with a compliance of zero or a vascular resistance of zero, the
    arterial pressure is an infinity or NaN after every step: no sample of
    the returned trace has a finite arterial pressure. *)
Theorem zero_compliance_or_resistance (comp_or_svr : is_zero (comp p) = true \/ is_zero (svr p) = true) :
  exists r, runSimulation M p o = Normal r /\
            forall s, In s (Sim.traceP r) -> is_finite (Sample.P_art s) = false.
Proof.
  destruct (runSimulation_returns M p o) as (m & _ & Hr).
  eexists. split; [exact Hr | ]. cbn [Sim.traceP].
  intros s Hs. apply in_map_iff in Hs. destruct Hs as (k & <- & _).
  unfold sampleAt. cbn [Sample.P_art stateAt].
  apply advance_pressure_not_finite. exact comp_or_svr.
Qed.

Lemma phaseAt_zero_rate (step : Z) : is_zero (hr p) = true -> phaseAt p o step = nan.
Proof.
  intros H. unfold phaseAt, dt. cbv zeta.
  rewrite rem_not_finite; [apply div_nan_l | ].
  apply mul_not_finite_r, div_not_finite_l, div_zero_not_finite. exact H.
Qed.

(** X8: with a heart rate of zero, the phase of every step is NaN: every
    sample of the returned trace has [tFrac = NaN]. *)
Theorem zero_rate_phase (zero_rate : is_zero (hr p) = true) :
  exists r, runSimulation M p o = Normal r /\
            forall s, In s (Sim.traceP r) -> Sample.tFrac s = nan.
Proof.
  destruct (runSimulation_returns M p o) as (m & _ & Hr).
  eexists. split; [exact Hr | ]. cbn [Sim.traceP].
  intros s Hs. apply in_map_iff in Hs. destruct Hs as (k & <- & _).
  unfold sampleAt. cbn [Sample.tFrac].
  apply phaseAt_zero_rate. exact zero_rate.
Qed.

End StateFacts.

Lemma non_finite_is_absorbing_witness :
  exists r si sj,
    runSimulation RefMath.impl stiff {| stepsPerBeat := 3; beats := 1 |} = Normal r /\
    (0 <= 2)%nat /\
    nth_error (Sim.traceP r) 0 = Some si /\ nth_error (Sim.traceP r) 2 = Some sj /\
    (is_finite (Sample.V_lv si) = false -> is_finite (Sample.V_lv sj) = false) /\
    (is_finite (Sample.P_art si) = false -> is_finite (Sample.P_art sj) = false).
Proof.
  eexists. eexists. eexists.
  split; [vm_compute; reflexivity | ].
  split; [lia | ]. split; [reflexivity | ]. split; [reflexivity | ].
  eapply (non_finite_is_absorbing RefMath.impl stiff {| stepsPerBeat := 3; beats := 1 |} _ 0 2).
  - vm_compute. reflexivity.
  - lia.
  - reflexivity.
  - reflexivity.
Defined.

Lemma zero_compliance_or_resistance_witness :
  exists r,
    runSimulation RefMath.impl
      {| hr := 75; edv := 120; esv := 50; autoEsv := false; contr := 0.5;
         svr := 1200; comp := 0; rap := 2; Emax := 2.0; Emin := 0.06; V0 := 10 |}
      defaultOpts = Normal r /\
    forall s, In s (Sim.traceP r) -> is_finite (Sample.P_art s) = false.
Proof.
  apply (zero_compliance_or_resistance RefMath.impl). left. reflexivity.
Defined.

Lemma zero_rate_phase_witness :
  exists r,
    runSimulation RefMath.impl
      {| hr := 0; edv := 120; esv := 50; autoEsv := false; contr := 0.5;
         svr := 1200; comp := 1.5; rap := 2; Emax := 2.0; Emin := 0.06; V0 := 10 |}
      defaultOpts = Normal r /\
    forall s, In s (Sim.traceP r) -> Sample.tFrac s = nan.
Proof.
  apply (zero_rate_phase RefMath.impl). reflexivity.
Defined.

(** ** The ventricle and the valves *)

Section ValveFacts.

Variable M : Math.impl.
Variable p : Params.

(** X9: whatever the volume, the ventricular pressure
    [E_t * Math.max(0, V_lv - V0)] is not negative when the elastance [E_t]
    is not negative. *)
Theorem ventricularPressure_not_negative (tFrac V : float) :
  (Emin p + (Emax p - Emin p) * normalizedElastance M tFrac <? 0) = false ->
  (ventricularPressure M p tFrac V <? 0) = false.
Proof.
  intros HE. unfold ventricularPressure.
  apply mul_not_negative; [exact HE | apply max_zero_nn].
Qed.

Lemma sub_le_finite_not_nan (x y : float) :
  (x <=? y) = true -> is_finite y = true -> is_nan (x - y) = false.
Proof.
  intros Hle Fy. destruct (is_finite x) eqn:Fx.
  - apply sub_finite_not_nan; assumption.
  - destruct (leb_not_nan x y Hle) as [Nx _].
    rewrite is_nan_rep, sub_spec. rewrite is_finite_rep in Fx, Fy. rewrite is_nan_rep in Nx.
    destruct (Prim2SF x) as [sx | sx | | sx mx ex]; try discriminate;
      destruct (Prim2SF y) as [sy | sy | | sy my ey]; try discriminate; reflexivity.
Qed.

Lemma max_zero_of_nonpositive (d : float) : (d <=? 0) = true -> Math.max [0; d] = 0.
Proof.
  intros Hd. destruct (leb_not_nan d 0 Hd) as [Nd N0].
  rewrite max_zero_cases, Nd. rewrite ltb_F2Z by assumption.
  rewrite leb_F2Z in Hd by assumption. apply Z.leb_le in Hd.
  destruct (Z.ltb_spec (F2Z 0) (F2Z d)); [lia | reflexivity].
Qed.

Lemma finite_mul_zero (e : float) : is_finite e = true -> is_zero (e * 0) = true.
Proof.
  rewrite is_finite_rep, is_zero_rep, mul_spec. change (Prim2SF 0) with (S754_zero false).
  destruct (Prim2SF e) as [s | s | | s m x]; try discriminate; reflexivity.
Qed.

Lemma zero_sub_leb_zero (z P : float) :
  is_zero z = true -> (0 <=? P) = true -> (z - P <=? 0) = true.
Proof.
  intros Hz HP. destruct (leb_not_nan 0 P HP) as [N0 NP].
  assert (Nz : is_nan z = false).
  { rewrite is_nan_rep. rewrite is_zero_rep in Hz. destruct (Prim2SF z); try discriminate; reflexivity. }
  assert (Fz : F2Z z = 0%Z).
  { rewrite is_zero_rep in Hz. unfold F2Z. destruct (Prim2SF z); try discriminate; reflexivity. }
  apply sub_leb_zero.
  - rewrite leb_F2Z by assumption. rewrite leb_F2Z in HP by assumption.
    apply Z.leb_le in HP. apply Z.leb_le. change (F2Z 0) with 0%Z in HP. lia.
  - rewrite is_nan_rep, sub_spec. rewrite is_zero_rep in Hz. rewrite is_nan_rep in NP.
    destruct (Prim2SF z) as [sz | sz | | sz mz ez]; try discriminate;
      destruct (Prim2SF P) as [sp | sp | | sp mp ep]; try discriminate;
      destruct sz; try destruct sp; reflexivity.
Qed.

(** X10: below the unstressed volume the ventricle is slack. When
    [V_lv <= V0], with [V0] and the elastance finite, the ventricular
    pressure is zero; and then, if the arterial pressure is not negative,
    the aortic flow [Qout] is [0]. *)
Theorem slack_ventricle (tFrac V P : float) :
  is_finite (Emin p + (Emax p - Emin p) * normalizedElastance M tFrac) = true ->
  is_finite (V0 p) = true ->
  (V <=? V0 p) = true ->
  is_zero (ventricularPressure M p tFrac V) = true /\
  ((0 <=? P) = true -> aorticFlow M p tFrac V P = 0).
Proof.
  intros FE F0 Hle.
  assert (Hz : is_zero (ventricularPressure M p tFrac V) = true).
  { unfold ventricularPressure.
    rewrite max_zero_of_nonpositive.
    - apply finite_mul_zero. exact FE.
    - apply sub_leb_zero; [exact Hle | apply sub_le_finite_not_nan; assumption]. }
  split; [exact Hz | ].
  intros HP. unfold aorticFlow, valveFlow. cbv zeta.
  rewrite (zero_sub_leb_zero _ P Hz HP). reflexivity.
Qed.

Lemma valveFlow_positive_inv (a b R : float) :
  (0 <? valveFlow a b R) = true ->
  is_nan a = false /\ is_nan b = false /\ (F2Z b < F2Z a)%Z.
Proof.
  unfold valveFlow. cbv zeta. destruct (a - b <=? 0) eqn:Hd; [discriminate | ].
  intros Hpos.
  assert (Hn : is_nan (a - b) = false).
  { destruct (is_nan (a - b)) eqn:E; [ | reflexivity].
    rewrite (is_nan_true _ E), div_nan_l in Hpos. discriminate. }
  assert (Na : is_nan a = false).
  { rewrite is_nan_rep in *. rewrite sub_spec in Hn.
    destruct (Prim2SF a); try reflexivity. discriminate. }
  assert (Nb : is_nan b = false).
  { rewrite is_nan_rep in *. rewrite sub_spec in Hn.
    destruct (Prim2SF b); try reflexivity. destruct (Prim2SF a); discriminate. }
  split; [exact Na | split; [exact Nb | ]].
  destruct (Z.leb_spec (F2Z a) (F2Z b)) as [Hle | Hgt]; [ | exact Hgt].
  assert (Hab : (a <=? b) = true) by (rewrite leb_F2Z by assumption; apply Z.leb_le; exact Hle).
  rewrite (sub_leb_zero a b Hab Hn) in Hd. discriminate.
Qed.

(** X11: while the arterial pressure is not below the venous pressure, the
    two valves are never open in the same step: the mitral flow [Qin] and
    the aortic flow [Qout] are not both positive. *)
Theorem valves_not_both_open (tFrac V P : float) :
  (rap p <=? P) = true ->
  (0 <? mitralFlow M p tFrac V) && (0 <? aorticFlow M p tFrac V P) = false.
Proof.
  intros Hle. destruct (leb_not_nan _ _ Hle) as [Nr NP].
  rewrite leb_F2Z in Hle by assumption. apply Z.leb_le in Hle.
  destruct (0 <? mitralFlow M p tFrac V) eqn:Hin; [ | reflexivity].
  destruct (0 <? aorticFlow M p tFrac V P) eqn:Hout; [ | reflexivity].
  unfold mitralFlow in Hin. unfold aorticFlow in Hout.
  apply valveFlow_positive_inv in Hin. apply valveFlow_positive_inv in Hout. lia.
Qed.

End ValveFacts.

Lemma ventricularPressure_not_negative_witness :
  (Emin normal + (Emax normal - Emin normal) * normalizedElastance RefMath.impl 0.1 <? 0) = false /\
  (ventricularPressure RefMath.impl normal 0.1 (-5) <? 0) = false.
Proof.
  split; [reflexivity | ].
  apply (ventricularPressure_not_negative RefMath.impl normal 0.1 (-5)). reflexivity.
Defined.

Lemma slack_ventricle_witness :
  is_zero (ventricularPressure RefMath.impl normal 0.1 8) = true /\
  ((0 <=? 90) = true -> aorticFlow RefMath.impl normal 0.1 8 90 = 0).
Proof.
  apply (slack_ventricle RefMath.impl normal 0.1 8 90); reflexivity.
Defined.

Lemma valves_not_both_open_witness :
  (0 <? mitralFlow RefMath.impl normal 0.1 120) &&
  (0 <? aorticFlow RefMath.impl normal 0.1 120 90) = false.
Proof.
  apply (valves_not_both_open RefMath.impl normal 0.1 120 90). reflexivity.
Defined.

(** ** The caller *)

(** X12: which controls reach the simulation that is rendered. With the
    checkbox [autoEsv] ticked, [Emax] comes from the contractility and the
    value of the [Emax] control has no effect; with it unticked, the
    contractility has no effect. The control [esv] never has one. *)
Theorem simulate_ignores_controls (M : Math.impl) (p q : Params) :
  autoEsv p = autoEsv q ->
  (if autoEsv p then contr p = contr q else Emax p = Emax q) ->
  [hr p; edv p; svr p; comp p; rap p; Emin p; V0 p] =
  [hr q; edv q; svr q; comp q; rap q; Emin q; V0 q] ->
  simulate M p = simulate M q.
Proof.
  intros Ha Hc H.
  assert (He : engineInputs (simulationParams p) = engineInputs (simulationParams q)).
  { unfold simulationParams. rewrite <- Ha.
    injection H as H1 H2 H3 H4 H5 H6 H7.
    destruct (autoEsv p); unfold engineInputs; cbn [hr edv svr comp rap Emax Emin V0];
      congruence. }
  destruct (run_parts_inputs M _ _ {| stepsPerBeat := 400; beats := 8 |} He)
    as (Hloop & Hinit & Hsum).
  unfold simulate, runSimulation. cbv zeta. rewrite Hloop, Hinit, Hsum. reflexivity.
Qed.

Lemma simulate_ignores_controls_witness :
  simulate RefMath.impl
    {| hr := 75; edv := 120; esv := 50; autoEsv := true; contr := 0.5;
       svr := 1200; comp := 1.5; rap := 2; Emax := 2.0; Emin := 0.06; V0 := 10 |} =
  simulate RefMath.impl
    {| hr := 75; edv := 120; esv := 70; autoEsv := true; contr := 0.5;
       svr := 1200; comp := 1.5; rap := 2; Emax := 4.0; Emin := 0.06; V0 := 10 |}.
Proof.
  apply (simulate_ignores_controls RefMath.impl); reflexivity.
Defined.

(** ** Scenarios *)

Module ScenarioFacts.
Import String Scenario.
Local Open Scope string_scope.

Lemma truthy_jnum (n : float) : truthy (jnum n) = carried n.
Proof.
  unfold jnum, carried. destruct (is_finite n) eqn:Fn; [ | reflexivity].
  destruct (is_zero n) eqn:Zn; cbn [truthy andb negb]; [reflexivity | ].
  rewrite Zn, (is_finite_not_nan n Fn). reflexivity.
Qed.

Lemma jnum_carried (n : float) : carried n = true -> jnum n = JNum n.
Proof.
  unfold jnum, carried. intros H. apply andb_true_iff in H. destruct H as [-> H].
  apply negb_true_iff in H. rewrite H. reflexivity.
Qed.

Lemma orCurrent_jnum (obj : json) (key : string) (c : control) (n : float) :
  member obj key = Some (jnum n) -> orCurrent obj key c = restored n c.
Proof.
  intros H. unfold orCurrent, restored. rewrite H, truthy_jnum.
  destruct (carried n) eqn:Hc; [ | reflexivity].
  rewrite (jnum_carried n Hc). reflexivity.
Qed.

(** *** Sequences of assignments *)

Lemma accepted_jnum (n : float) : accepted (FromObject (jnum n)) = true.
Proof. unfold jnum. destruct (is_finite n); reflexivity. Qed.

Lemma accepted_restored (n : float) (c : control) : accepted (restored n c) = true.
Proof. unfold restored. destruct (carried n); reflexivity. Qed.

Lemma assignAll_completes (l : list (control * assigned)) :
  forallb accepted (map snd l) = true -> assignAll l = (setValues l, true).
Proof.
  induction l as [ | [c a] rest IH]; [reflexivity | ].
  cbn [map snd forallb assignAll]. intros H. apply andb_true_iff in H.
  destruct H as [Ha Hrest]. rewrite Ha, (IH Hrest). reflexivity.
Qed.

Lemma assignAll_stops (l : list (control * assigned)) :
  forall (n : nat) (c : control) (a : assigned),
  nth_error l n = Some (c, a) ->
  accepted a = false ->
  forallb accepted (map snd (firstn n l)) = true ->
  assignAll l = (setValues (firstn n l), false).
Proof.
  induction l as [ | [c0 a0] rest IH]; intros n c a Hn Ha Hbefore.
  - destruct n; discriminate Hn.
  - destruct n as [ | n].
    + injection Hn as -> ->. cbn [assignAll firstn]. rewrite Ha. reflexivity.
    + cbn [nth_error] in Hn. cbn [firstn map snd forallb] in Hbefore.
      apply andb_true_iff in Hbefore. destruct Hbefore as [Ha0 Hbefore].
      cbn [assignAll firstn]. rewrite Ha0, (IH n c a Hn Ha Hbefore). reflexivity.
Qed.

(** The assignments made are an initial segment of the sequence; it is the
    whole sequence when all completed. *)
Lemma assignAll_prefix (l : list (control * assigned)) :
  exists n, (n <= List.length l)%nat /\ fst (assignAll l) = setValues (firstn n l) /\
            (snd (assignAll l) = true -> n = List.length l).
Proof.
  induction l as [ | [c a] rest IH].
  - exists 0%nat. repeat split; constructor.
  - cbn [assignAll]. destruct (accepted a).
    + destruct IH as (n & Hn & Hmade & Hall). exists (S n).
      destruct (assignAll rest) as [made completed]. cbn [fst snd] in *.
      split; [cbn [List.length]; lia | ]. split.
      * cbn [firstn]. rewrite Hmade. reflexivity.
      * intros H. cbn [List.length]. rewrite (Hall H). reflexivity.
    + exists 0%nat. split; [cbn [List.length]; lia | ]. split; [reflexivity | discriminate].
Qed.

Lemma assignedControls_app (l1 l2 : list effect) :
  assignedControls (l1 ++ l2) = (assignedControls l1 ++ assignedControls l2)%list.
Proof.
  induction l1 as [ | e rest IH]; [reflexivity | ].
  destruct e; cbn [app assignedControls]; rewrite IH; reflexivity.
Qed.

Lemma assignedControls_setValues (l : list (control * assigned)) :
  assignedControls (setValues l) = map fst l.
Proof.
  induction l as [ | [c a] rest IH]; [reflexivity | ].
  cbn [setValues map fst snd assignedControls]. f_equal. exact IH.
Qed.

Lemma importHandler_accepted (obj : json) (h : json) :
  obj <> JNull -> member obj "hr" = Some h -> truthy h = true ->
  importHandler (Some obj) =
  match assignAll (importAssignments obj) with
  | (made, true) => (made ++ [UpdateDisplayParams])%list
  | (made, false) => (made ++ [Alert ParseFailed])%list
  end.
Proof.
  intros Hobj Hh Ht. destruct obj; try contradiction; try discriminate Hh.
  unfold importHandler. rewrite Hh, Ht. reflexivity.
Qed.

Lemma member_not_null (obj : json) (key : string) (v : json) :
  member obj key = Some v -> obj <> JNull.
Proof. intros H E. rewrite E in H. discriminate H. Qed.

(** X13: an import can stop half-way. Whatever the file holds, the controls
    the handler assigns are an initial segment of the ten parameter
    controls in the order of the source; the checkbox [autoEsv] is never
    assigned. When the text does not parse, is [null], or has [hr] missing
    or falsy ([0], [null], [false], the empty string), the handler only
    raises an alert. When [hr] is truthy and every value to assign converts
    to a string, the ten controls are assigned and the display is updated.
    When [hr] is truthy and a value does not convert (an object with a
    property [toString] of its own, or an array that holds one), the
    assignments before it are made and stay, the others are not made, and
    the alert of a parse failure is raised. *)
Theorem import_assigns_prefix (parsed : option json) :
  (exists n, assignedControls (importHandler parsed) = firstn n parameterControls) /\
  ((forall obj h, parsed = Some obj -> member obj "hr" = Some h -> truthy h = false) ->
   exists m, importHandler parsed = [Alert m]) /\
  (forall obj h,
     parsed = Some obj -> member obj "hr" = Some h -> truthy h = true ->
     forallb accepted (map snd (importAssignments obj)) = true ->
     importHandler parsed = (setValues (importAssignments obj) ++ [UpdateDisplayParams])%list) /\
  (forall obj h n c a,
     parsed = Some obj -> member obj "hr" = Some h -> truthy h = true ->
     nth_error (importAssignments obj) n = Some (c, a) ->
     accepted a = false ->
     forallb accepted (map snd (firstn n (importAssignments obj))) = true ->
     importHandler parsed =
       (setValues (firstn n (importAssignments obj)) ++ [Alert ParseFailed])%list).
Proof.
  split; [ | split; [ | split]].
  - destruct parsed as [obj | ]; [ | exists 0%nat; reflexivity].
    destruct (member obj "hr") as [h | ] eqn:Hh.
    + destruct (truthy h) eqn:Ht.
      * rewrite (importHandler_accepted obj h (member_not_null _ _ _ Hh) Hh Ht).
        destruct (assignAll_prefix (importAssignments obj)) as (n & _ & Hmade & _).
        exists n. destruct (assignAll (importAssignments obj)) as [made completed].
        cbn [fst] in Hmade. rewrite Hmade.
        destruct completed; rewrite assignedControls_app, assignedControls_setValues;
          cbn [assignedControls]; rewrite app_nil_r, <- firstn_map; reflexivity.
      * exists 0%nat. destruct obj; try discriminate Hh.
        unfold importHandler. rewrite Hh, Ht. reflexivity.
    + exists 0%nat. destruct obj; try reflexivity.
      unfold importHandler. rewrite Hh. reflexivity.
  - intros Hhr. destruct parsed as [obj | ]; [ | exists ParseFailed; reflexivity].
    destruct (member obj "hr") as [h | ] eqn:Hh.
    + pose proof (Hhr obj h eq_refl Hh) as Ht.
      destruct obj; try discriminate Hh.
      exists InvalidScenario. unfold importHandler. rewrite Hh, Ht. reflexivity.
    + destruct obj; try (exists ParseFailed; reflexivity);
        try (exists InvalidScenario; reflexivity).
      exists InvalidScenario. unfold importHandler. rewrite Hh. reflexivity.
  - intros obj h -> Hh Ht Hall.
    rewrite (importHandler_accepted obj h (member_not_null _ _ _ Hh) Hh Ht).
    rewrite (assignAll_completes _ Hall). reflexivity.
  - intros obj h n c a -> Hh Ht Hn Ha Hbefore.
    rewrite (importHandler_accepted obj h (member_not_null _ _ _ Hh) Hh Ht).
    rewrite (assignAll_stops _ n c a Hn Ha Hbefore). reflexivity.
Qed.

(** The file [{"hr": 75, "edv": {"toString": 1}}]: the heart rate is
    assigned, then the alert is raised. *)
Lemma import_assigns_prefix_witness :
  let file := JObj [("hr", JNum 75); ("edv", JObj [("toString", JNum 1)])] in
  member file "hr" = Some (JNum 75) /\ truthy (JNum 75) = true /\
  nth_error (importAssignments file) 1 =
    Some (edv_, FromObject (JObj [("toString", JNum 1)])) /\
  accepted (FromObject (JObj [("toString", JNum 1)])) = false /\
  importHandler (Some file) = [SetValue hr_ (FromObject (JNum 75)); Alert ParseFailed].
Proof.
  cbv zeta.
  split; [reflexivity | split; [reflexivity | split; [reflexivity | split; [reflexivity | ]]]].
  destruct (import_assigns_prefix
              (Some (JObj [("hr", JNum 75); ("edv", JObj [("toString", JNum 1)])])))
    as (_ & _ & _ & Hstops).
  exact (Hstops _ (JNum 75) 1%nat edv_ (FromObject (JObj [("toString", JNum 1)]))
           eq_refl eq_refl eq_refl eq_refl eq_refl eq_refl).
Defined.

(** The import of an exported scenario, with [restored] at the nine keys
    that follow [hr]. *)
Lemma import_stringified (p : Params) :
  importHandler (Some (stringified p)) =
  if carried (hr p) then
    [ SetValue hr_ (FromObject (jnum (hr p)));
      SetValue edv_ (restored (edv p) edv_);
      SetValue esv_ (restored (esv p) esv_);
      SetValue contractility_ (restored (contr p) contractility_);
      SetValue svr_ (restored (svr p) svr_);
      SetValue compliance_ (restored (comp p) compliance_);
      SetValue rap_ (restored (rap p) rap_);
      SetValue emax_ (restored (Emax p) emax_);
      SetValue emin_ (restored (Emin p) emin_);
      SetValue v0_ (restored (V0 p) v0_);
      UpdateDisplayParams ]
  else [Alert InvalidScenario].
Proof.
  destruct (carried (hr p)) eqn:Hc.
  - rewrite (importHandler_accepted (stringified p) (jnum (hr p)));
      [ | discriminate | reflexivity | rewrite truthy_jnum; exact Hc].
    unfold importAssignments.
    rewrite (orCurrent_jnum _ "edv" edv_ (edv p)) by reflexivity.
    rewrite (orCurrent_jnum _ "esv" esv_ (esv p)) by reflexivity.
    rewrite (orCurrent_jnum _ "contr" contractility_ (contr p)) by reflexivity.
    rewrite (orCurrent_jnum _ "svr" svr_ (svr p)) by reflexivity.
    rewrite (orCurrent_jnum _ "comp" compliance_ (comp p)) by reflexivity.
    rewrite (orCurrent_jnum _ "rap" rap_ (rap p)) by reflexivity.
    rewrite (orCurrent_jnum _ "Emax" emax_ (Emax p)) by reflexivity.
    rewrite (orCurrent_jnum _ "Emin" emin_ (Emin p)) by reflexivity.
    rewrite (orCurrent_jnum _ "V0" v0_ (V0 p)) by reflexivity.
    change (plain (stringified p) "hr") with (FromObject (jnum (hr p))).
    rewrite assignAll_completes; [reflexivity | ].
    cbn [map snd forallb]. rewrite accepted_jnum, !accepted_restored. reflexivity.
  - unfold stringified, importHandler.
    change (member _ "hr") with (Some (jnum (hr p))). cbv iota.
    rewrite truthy_jnum, Hc. reflexivity.
Qed.

(** The load of a saved scenario. *)
Lemma load_stringified (p : Params) :
  loadScenarioFromLocal (Some (Some (stringified p))) =
  Done (setValues (loadAssignments (stringified p)) ++ [UpdateDisplayParams])%list.
Proof.
  unfold loadScenarioFromLocal, stringified.
  rewrite assignAll_completes; [reflexivity | ].
  cbn [loadAssignments map snd forallb].
  change (plain _ "hr") with (FromObject (jnum (hr p))).
  change (plain _ "edv") with (FromObject (jnum (edv p))).
  change (plain _ "esv") with (FromObject (jnum (esv p))).
  change (plain _ "contr") with (FromObject (jnum (contr p))).
  change (plain _ "svr") with (FromObject (jnum (svr p))).
  change (plain _ "comp") with (FromObject (jnum (comp p))).
  change (plain _ "rap") with (FromObject (jnum (rap p))).
  change (plain _ "Emax") with (FromObject (jnum (Emax p))).
  change (plain _ "Emin") with (FromObject (jnum (Emin p))).
  change (plain _ "V0") with (FromObject (jnum (V0 p))).
  rewrite !accepted_jnum. reflexivity.
Qed.

(** X14: export, then import. When the heart rate of the exported scenario
    is finite and not zero, the import assigns every control the exported
    value if this value is finite and not zero, and assigns it the value it
    has otherwise: a field that is [0] (a venous pressure of zero, say),
    NaN or infinite is not restored. When the heart rate is zero, NaN or
    infinite, the exported file is refused as invalid. *)
Theorem export_import (p : Params) :
  importHandler (Some (stringified p)) =
  if carried (hr p) then
    [ SetValue hr_ (FromObject (JNum (hr p)));
      SetValue edv_ (restored (edv p) edv_);
      SetValue esv_ (restored (esv p) esv_);
      SetValue contractility_ (restored (contr p) contractility_);
      SetValue svr_ (restored (svr p) svr_);
      SetValue compliance_ (restored (comp p) compliance_);
      SetValue rap_ (restored (rap p) rap_);
      SetValue emax_ (restored (Emax p) emax_);
      SetValue emin_ (restored (Emin p) emin_);
      SetValue v0_ (restored (V0 p) v0_);
      UpdateDisplayParams ]
  else [Alert InvalidScenario].
Proof.
  rewrite import_stringified. destruct (carried (hr p)) eqn:Hc; [ | reflexivity].
  rewrite (jnum_carried _ Hc). reflexivity.
Qed.

(** X15: save, then load. Loading what was saved assigns each of the ten
    controls the value that JSON carried for it, zero included ([-0] as
    [0], NaN and the infinities as [null]), with no test of [hr]; and when
    the ten values are finite and not zero, importing the exported file
    makes the same assignments. *)
Theorem save_load (p : Params) :
  let effects :=
    [ SetValue hr_ (FromObject (jnum (hr p)));
      SetValue edv_ (FromObject (jnum (edv p)));
      SetValue esv_ (FromObject (jnum (esv p)));
      SetValue contractility_ (FromObject (jnum (contr p)));
      SetValue svr_ (FromObject (jnum (svr p)));
      SetValue compliance_ (FromObject (jnum (comp p)));
      SetValue rap_ (FromObject (jnum (rap p)));
      SetValue emax_ (FromObject (jnum (Emax p)));
      SetValue emin_ (FromObject (jnum (Emin p)));
      SetValue v0_ (FromObject (jnum (V0 p)));
      UpdateDisplayParams ] in
  loadScenarioFromLocal (Some (Some (stringified p))) = Done effects /\
  (forallb carried [hr p; edv p; esv p; contr p; svr p; comp p; rap p; Emax p; Emin p; V0 p] = true ->
   importHandler (Some (stringified p)) = effects).
Proof.
  cbv zeta. split; [rewrite load_stringified; reflexivity | ].
  intros H. cbn [forallb] in H.
  repeat (apply andb_true_iff in H; let Hx := fresh "C" in destruct H as [Hx H]).
  rewrite import_stringified, C. unfold restored.
  rewrite C0, C1, C2, C3, C4, C5, C6, C7, C8.
  rewrite !jnum_carried by assumption. reflexivity.
Qed.

Lemma save_load_witness :
  loadScenarioFromLocal (Some (Some (stringified normal))) =
    Done [ SetValue hr_ (FromObject (JNum 75)); SetValue edv_ (FromObject (JNum 120));
           SetValue esv_ (FromObject (JNum 50)); SetValue contractility_ (FromObject (JNum 0.5));
           SetValue svr_ (FromObject (JNum 1200)); SetValue compliance_ (FromObject (JNum 1.5));
           SetValue rap_ (FromObject (JNum 2)); SetValue emax_ (FromObject (JNum 2.0));
           SetValue emin_ (FromObject (JNum 0.06)); SetValue v0_ (FromObject (JNum 10));
           UpdateDisplayParams ] /\
  importHandler (Some (stringified normal)) =
    [ SetValue hr_ (FromObject (JNum 75)); SetValue edv_ (FromObject (JNum 120));
      SetValue esv_ (FromObject (JNum 50)); SetValue contractility_ (FromObject (JNum 0.5));
      SetValue svr_ (FromObject (JNum 1200)); SetValue compliance_ (FromObject (JNum 1.5));
      SetValue rap_ (FromObject (JNum 2)); SetValue emax_ (FromObject (JNum 2.0));
      SetValue emin_ (FromObject (JNum 0.06)); SetValue v0_ (FromObject (JNum 10));
      UpdateDisplayParams ].
Proof.
  destruct (save_load normal) as [H1 H2].
  split; [exact H1 | ]. apply H2. reflexivity.
Defined.

End ScenarioFacts.
